(** * CogniTriage front end: job lifecycle and result aggregation

    A shallow embedding of the client-side pipeline of the dashboard:

    - [context/AppContext.tsx]: the shared store ([PatientData],
      [AnalysisResult]) and its two merge setters;
    - [pages/Dashboard.tsx]: the submission guard [canSubmit], the three
      submission handlers, and the polling effect with its interval timer.

    JavaScript objects whose fields are [any] are finite maps from property
    names to values; the typed intake record is a Rocq record.  The browser
    event loop is a deterministic [step] function over a [World]: every
    event runs one synchronous segment of a handler (up to its next
    [await]) and is followed by the React commit that re-runs the polling
    effect when its dependency [jobId] has changed.

    Scope of the model:
    - one Dashboard instance, from session start to its unmount; settled
      requests still resume their continuation after the unmount, since
      the store lives in the provider above the routes; mounting the
      page again is not an event of the model, so the statements about
      timers speak of this instance, and those that need it say so
      ([Unmount ∉ es], [mounted w = false]);
    - the awaits on [resp.text()] and [resp.json()] are folded into the
      settlement of their [fetch]: the code between them touches neither
      the store nor the timer;
    - the trace records requests and [console.error] calls, not
      [console.log];
    - job identifiers are strings, as the service contract and the type of
      [jobId] say;
    - rendering is taken to succeed: a status body whose [status] or
      [progress] is an object makes the progress panel throw, which is
      outside the model (see [status_renders]). *)

From Stdlib Require Import PrimFloat.
From stdpp Require Import gmap strings list fin_maps.

(** ** JavaScript values *)

(** Numbers are IEEE doubles, as in the language.  Objects are maps over
    their own properties; prototype properties are not modelled (none of
    the names read by the code below is one). *)
#[warnings="-register-all"]
Inductive JSValue :=
| JUndefined
| JNull
| JBool (b : bool)
| JNum (n : float)
| JStr (s : string)
| JArr (l : list JSValue)
| JObj (o : gmap string JSValue).

(** [v.k]: [None] stands for the [TypeError] raised on [null] and
    [undefined]. *)
Definition js_get (v : JSValue) (k : string) : option JSValue :=
  match v with
  | JUndefined | JNull => None
  | JObj o => Some (default JUndefined (o !! k))
  | _ => Some JUndefined
  end.

(** [v?.k] *)
Definition js_opt_get (v : JSValue) (k : string) : JSValue :=
  default JUndefined (js_get v k).

(** [v === s] for a string literal [s] *)
Definition js_is_string (v : JSValue) (s : string) : bool :=
  match v with
  | JStr s' => bool_decide (s' = s)
  | _ => false
  end.

(** ** AppContext.tsx: the store *)

Inductive File := MkFile (file_name : string).

(** [number | ""] *)
Inductive NumOrEmpty :=
| Empty
| Num (n : float).

Record PatientData := {
  age : NumOrEmpty;
  moca : NumOrEmpty;
  sex : string;
  files : list File
}.

(** [Partial<PatientData>]: a field is [None] when the key is absent. *)
Record PartialPatientData := {
  p_age : option NumOrEmpty;
  p_moca : option NumOrEmpty;
  p_sex : option string;
  p_files : option (list File)
}.

Definition noPatientFields : PartialPatientData :=
  {| p_age := None; p_moca := None; p_sex := None; p_files := None |}.

(** [AnalysisResult] and [Partial<AnalysisResult>] are objects with [any]
    fields and optional keys: maps from property name to value.  A key
    bound to [JUndefined] is present, as it is in JavaScript. *)
Abbreviation AnalysisResult := (gmap string JSValue).

Definition initialPatientData : PatientData :=
  {| age := Empty; moca := Empty; sex := "F"; files := [] |}.

Definition initialAnalysisResult : AnalysisResult :=
  {[ "jobId" := JNull;
     "status" := JNull;
     "result" := JNull;
     "triage" := JNull;
     "note" := JNull;
     "citations" := JArr [];
     "trials" := JArr [];
     "treatment_recommendations" := JNull ]}.

(** [prev => ({ ...prev, ...data })] on the typed record *)
Definition setPatientData (data : PartialPatientData) (prev : PatientData)
  : PatientData :=
  {| age := default (age prev) (p_age data);
     moca := default (moca prev) (p_moca data);
     sex := default (sex prev) (p_sex data);
     files := default (files prev) (p_files data) |}.

(** [prev => ({ ...prev, ...result })]: the keys of [result] win. *)
Definition setAnalysisResult (result : AnalysisResult) (prev : AnalysisResult)
  : AnalysisResult :=
  result ∪ prev.

(** ** Dashboard.tsx: the submission guard *)

Definition canSubmit (pd : PatientData) : bool :=
  let hasFiles := bool_decide (0 < length (files pd)) in
  let mocaValid :=
    match moca pd with
    | Num m => PrimFloat.leb 0 m && PrimFloat.leb m 30
    | Empty => true
    end in
  let ageValid :=
    match age pd with
    | Num a => PrimFloat.ltb 0 a
    | Empty => true
    end in
  hasFiles && mocaValid && ageValid.

(** ** Requests, continuations and the observable trace *)

(** A value appended to the [FormData]: a file, or the text
    [JSON.stringify v], kept as the value it serialises. *)
Inductive FormValue :=
| FormFile (f : File)
| FormJson (v : JSValue).

Abbreviation FormData := (list (string * FormValue)).

Inductive Request :=
| PostSubmit (fd : FormData)   (* POST /api/submit *)
| PostDemoSubmit               (* POST /api/demo-submit *)
| PostDemoPathology            (* POST /api/demo-pathology *)
| GetStatus (job : string)     (* GET /api/status/${jobId} *)
| GetResult (job : string).    (* GET /api/result/${jobId} *)

Inductive Submitter := StartSubmit | UseDemoCase | UseDemoPathology.

(** An async function suspended at its [await]. *)
Inductive Continuation :=
| AwaitSubmit (who : Submitter)
| AwaitStatus (job : string)
| AwaitResult (job : string).

(** How the create-job request settles.  The response body is typed by the
    service contract [{ job_id }], a string. *)
Inductive SubmitResponse :=
| SubmitRejected                                (* fetch or json() rejects *)
| SubmitNotOk (code : nat) (text : string)      (* !resp.ok *)
| SubmitOk (job_id : string).

(** How [fetch(url).then(r => r.json())] settles; the HTTP status is not
    inspected by the caller. *)
Inductive JsonResponse :=
| Rejected
| Resolved (v : JSValue).

Inductive Obs :=
| Sent (r : nat) (req : Request)
| ConsoleError (msg : string).

(** ** The world: store, component instance, timers, pending requests *)

Record World := {
  patientData : PatientData;
  analysisResult : AnalysisResult;
  mounted : bool;                       (* the Dashboard is on screen *)
  effectJob : option string;            (* truthy jobId of the last effect run *)
  pollRef : option positive;            (* pollRef.current *)
  intervals : gmap positive string;     (* live timers and the jobId their poll closed over *)
  nextInterval : positive;
  inflight : gmap nat Continuation;
  nextRequest : nat;
  trace : list Obs
}.

Definition with_patientData (f : PatientData → PatientData) (w : World) : World :=
  {| patientData := f (patientData w); analysisResult := analysisResult w;
     mounted := mounted w; effectJob := effectJob w; pollRef := pollRef w;
     intervals := intervals w; nextInterval := nextInterval w;
     inflight := inflight w; nextRequest := nextRequest w; trace := trace w |}.

Definition with_analysisResult (f : AnalysisResult → AnalysisResult) (w : World)
  : World :=
  {| patientData := patientData w; analysisResult := f (analysisResult w);
     mounted := mounted w; effectJob := effectJob w; pollRef := pollRef w;
     intervals := intervals w; nextInterval := nextInterval w;
     inflight := inflight w; nextRequest := nextRequest w; trace := trace w |}.

(** [fetch(req)] followed by [await]: the request goes out and the caller
    is parked under a fresh request number. *)
Definition fetch (req : Request) (k : Continuation) (w : World) : World :=
  {| patientData := patientData w; analysisResult := analysisResult w;
     mounted := mounted w; effectJob := effectJob w; pollRef := pollRef w;
     intervals := intervals w; nextInterval := nextInterval w;
     inflight := <[nextRequest w := k]> (inflight w);
     nextRequest := S (nextRequest w);
     trace := trace w ++ [Sent (nextRequest w) req] |}.

Definition settle (r : nat) (w : World) : World :=
  {| patientData := patientData w; analysisResult := analysisResult w;
     mounted := mounted w; effectJob := effectJob w; pollRef := pollRef w;
     intervals := intervals w; nextInterval := nextInterval w;
     inflight := delete r (inflight w);
     nextRequest := nextRequest w; trace := trace w |}.

Definition console_error (msg : string) (w : World) : World :=
  {| patientData := patientData w; analysisResult := analysisResult w;
     mounted := mounted w; effectJob := effectJob w; pollRef := pollRef w;
     intervals := intervals w; nextInterval := nextInterval w;
     inflight := inflight w; nextRequest := nextRequest w;
     trace := trace w ++ [ConsoleError msg] |}.

(** [pollRef.current = window.setInterval(poll, 2000)] where [poll] closed
    over [job]; timer handles are positive integers. *)
Definition setInterval (job : string) (w : World) : World :=
  {| patientData := patientData w; analysisResult := analysisResult w;
     mounted := mounted w; effectJob := effectJob w;
     pollRef := Some (nextInterval w);
     intervals := <[nextInterval w := job]> (intervals w);
     nextInterval := Pos.succ (nextInterval w);
     inflight := inflight w; nextRequest := nextRequest w; trace := trace w |}.

(** [if (pollRef.current) { clearInterval(pollRef.current); pollRef.current = null }] *)
Definition clearPollRef (w : World) : World :=
  match pollRef w with
  | Some t =>
      {| patientData := patientData w; analysisResult := analysisResult w;
         mounted := mounted w; effectJob := effectJob w;
         pollRef := None;
         intervals := delete t (intervals w);
         nextInterval := nextInterval w;
         inflight := inflight w; nextRequest := nextRequest w; trace := trace w |}
  | None => w
  end.

Definition set_effectJob (j : option string) (w : World) : World :=
  {| patientData := patientData w; analysisResult := analysisResult w;
     mounted := mounted w; effectJob := j; pollRef := pollRef w;
     intervals := intervals w; nextInterval := nextInterval w;
     inflight := inflight w; nextRequest := nextRequest w; trace := trace w |}.

Definition set_mounted (b : bool) (w : World) : World :=
  {| patientData := patientData w; analysisResult := analysisResult w;
     mounted := b; effectJob := effectJob w; pollRef := pollRef w;
     intervals := intervals w; nextInterval := nextInterval w;
     inflight := inflight w; nextRequest := nextRequest w; trace := trace w |}.

(** ** Dashboard.tsx: the handlers *)

(** [{ jobId: null, status: null, result: null }] *)
Definition clearedJob : AnalysisResult :=
  {[ "jobId" := JNull; "status" := JNull; "result" := JNull ]}.

Definition mocaVal (pd : PatientData) : float :=
  match moca pd with Num m => m | Empty => 24%float end.

Definition ageVal (pd : PatientData) : float :=
  match age pd with Num a => a | Empty => 70%float end.

(** The [FormData] built by [startSubmit]: one ["files"] entry per file,
    then ["moca"] and ["meta"]. *)
Definition submitForm (pd : PatientData) : FormData :=
  map (λ f, ("files", FormFile f)) (files pd)
  ++ [ ("moca", FormJson (JObj {[ "total" := JNum (mocaVal pd) ]}));
       ("meta", FormJson (JObj {[ "age" := JNum (ageVal pd);
                                  "sex" := JStr (sex pd) ]})) ].

Definition startSubmit (w : World) : World :=
  if negb (canSubmit (patientData w)) then w
  else
    let w1 := with_analysisResult (setAnalysisResult clearedJob) w in
    fetch (PostSubmit (submitForm (patientData w))) (AwaitSubmit StartSubmit) w1.

Definition useDemoCase (w : World) : World :=
  let w1 := with_patientData
              (setPatientData {| p_age := Some (Num 72); p_moca := Some (Num 24);
                                 p_sex := Some "M"; p_files := Some [] |}) w in
  let w2 := with_analysisResult (setAnalysisResult clearedJob) w1 in
  fetch PostDemoSubmit (AwaitSubmit UseDemoCase) w2.

Definition useDemoPathology (w : World) : World :=
  let w1 := with_patientData
              (setPatientData {| p_age := Some (Num 78); p_moca := Some (Num 19);
                                 p_sex := Some "F"; p_files := Some [] |}) w in
  let w2 := with_analysisResult (setAnalysisResult clearedJob) w1 in
  fetch PostDemoPathology (AwaitSubmit UseDemoPathology) w2.

Definition failureLabel (who : Submitter) : string :=
  match who with
  | StartSubmit => "Submit failed:"
  | UseDemoCase => "Demo submission failed:"
  | UseDemoPathology => "Demo pathology submission failed:"
  end.

(** The rest of a submission handler, resumed when its request settles. *)
Definition submitSettled (who : Submitter) (resp : SubmitResponse) (w : World)
  : World :=
  match resp with
  | SubmitOk job_id =>
      with_analysisResult (setAnalysisResult {[ "jobId" := JStr job_id ]}) w
  | SubmitRejected | SubmitNotOk _ _ => console_error (failureLabel who) w
  end.

(** [onSelectFiles] and [onDrop]: keep the first file only. *)
Definition onSelectFiles (fs : list File) (w : World) : World :=
  match fs with
  | [] => w
  | f :: _ =>
      with_patientData
        (setPatientData {| p_age := None; p_moca := None; p_sex := None;
                           p_files := Some [f] |}) w
  end.

(** [files.filter((_, i) => i !== idx)] *)
Definition removeIndex (idx : nat) (fs : list File) : list File :=
  (imap (λ i f, if decide (i = idx) then [] else [f]) fs) ≫= id.

Definition removeFile (idx : nat) (w : World) : World :=
  with_patientData
    (setPatientData {| p_age := None; p_moca := None; p_sex := None;
                       p_files := Some (removeIndex idx (files (patientData w))) |}) w.

(** The [poll] closure of the effect run for [job], up to its first
    [await]. *)
Definition poll (job : string) (w : World) : World :=
  fetch (GetStatus job) (AwaitStatus job) w.

(** The five derived fields and the raw document, as one partial. *)
Definition aggregate (result : JSValue) : AnalysisResult :=
  {[ "result" := result;
     "triage" := js_opt_get result "triage";
     "note" := js_opt_get result "note";
     "citations" := js_opt_get result "citations";
     "trials" := js_opt_get result "trials";
     "treatment_recommendations" := js_opt_get result "treatment_recommendations" ]}.

(** [poll] resumed with the status response. *)
Definition pollStatusSettled (job : string) (resp : JsonResponse) (w : World)
  : World :=
  match resp with
  | Rejected => console_error "Polling failed:" w
  | Resolved statusResp =>
      let w1 := with_analysisResult
                  (setAnalysisResult {[ "status" := statusResp ]}) w in
      match js_get statusResp "status" with
      | None => console_error "Polling failed:" w1
      | Some s =>
          if js_is_string s "completed"
          then fetch (GetResult job) (AwaitResult job) w1
          else w1
      end
  end.

(** [poll] resumed with the result response. *)
Definition pollResultSettled (job : string) (resp : JsonResponse) (w : World)
  : World :=
  match resp with
  | Rejected => console_error "Polling failed:" w
  | Resolved resultResp =>
      match js_get resultResp "result" with
      | None => console_error "Polling failed:" w
      | Some result =>
          clearPollRef
            (with_analysisResult (setAnalysisResult (aggregate result)) w)
      end
  end.

(** ** The polling effect and the React commit *)

(** The effect body runs only for a truthy [jobId]; the store holds
    [null] or a string there. *)
Definition active_job (s : AnalysisResult) : option string :=
  match s !! "jobId" with
  | Some (JStr j) => if decide (j = "") then None else Some j
  | _ => None
  end.

(** After every handler segment React re-renders; when the dependency
    [jobId] differs from the one of the last effect run, the previous
    cleanup runs and then the effect: an immediate [poll()] and a new
    interval.  Two falsy values are not told apart: the effect returns
    early on both and registers no cleanup. *)
Definition commit (w : World) : World :=
  if mounted w then
    let j := active_job (analysisResult w) in
    if decide (effectJob w = j) then w
    else
      let w1 := match effectJob w with
                | Some _ => clearPollRef w
                | None => w
                end in
      let w2 := match j with
                | Some job => setInterval job (poll job w1)
                | None => w1
                end in
      set_effectJob j w2
  else w.

Definition unmount (w : World) : World :=
  if mounted w then
    let w1 := match effectJob w with
              | Some _ => clearPollRef w
              | None => w
              end in
    set_mounted false (set_effectJob None w1)
  else w.

(** ** Events and the step function *)

Inductive Event :=
| SelectFiles (fs : list File)
| RemoveFile (idx : nat)
| ChangeMoca (v : NumOrEmpty)
| ChangeAge (v : NumOrEmpty)
| ChangeSex (s : string)
| ClickSubmit
| ClickDemoHealthy
| ClickDemoPathology
| Tick (t : positive)
| SubmitSettled (r : nat) (resp : SubmitResponse)
| FetchSettled (r : nat) (resp : JsonResponse)
| Unmount.

Definition onlyMoca (v : NumOrEmpty) : PartialPatientData :=
  {| p_age := None; p_moca := Some v; p_sex := None; p_files := None |}.

Definition onlyAge (v : NumOrEmpty) : PartialPatientData :=
  {| p_age := Some v; p_moca := None; p_sex := None; p_files := None |}.

Definition onlySex (s : string) : PartialPatientData :=
  {| p_age := None; p_moca := None; p_sex := Some s; p_files := None |}.

(** The handler segment an event runs.  User events need the Dashboard on
    screen; a settled request resumes its continuation wherever the user
    has navigated. *)
Definition handle (e : Event) (w : World) : World :=
  match e with
  | SelectFiles fs => if mounted w then onSelectFiles fs w else w
  | RemoveFile idx => if mounted w then removeFile idx w else w
  | ChangeMoca v =>
      if mounted w then with_patientData (setPatientData (onlyMoca v)) w else w
  | ChangeAge v =>
      if mounted w then with_patientData (setPatientData (onlyAge v)) w else w
  | ChangeSex s =>
      if mounted w then with_patientData (setPatientData (onlySex s)) w else w
  | ClickSubmit => if mounted w then startSubmit w else w
  | ClickDemoHealthy => if mounted w then useDemoCase w else w
  | ClickDemoPathology => if mounted w then useDemoPathology w else w
  | Tick t =>
      match intervals w !! t with
      | Some job => poll job w
      | None => w
      end
  | SubmitSettled r resp =>
      match inflight w !! r with
      | Some (AwaitSubmit who) => submitSettled who resp (settle r w)
      | _ => w
      end
  | FetchSettled r resp =>
      match inflight w !! r with
      | Some (AwaitStatus job) => pollStatusSettled job resp (settle r w)
      | Some (AwaitResult job) => pollResultSettled job resp (settle r w)
      | _ => w
      end
  | Unmount => unmount w
  end.

Definition step (e : Event) (w : World) : World := commit (handle e w).

Definition run (es : list Event) (w : World) : World :=
  fold_left (λ w e, step e w) es w.

(** Session start: empty store, Dashboard mounted, effect run once with
    [jobId = null]. *)
Definition initialWorld : World :=
  {| patientData := initialPatientData;
     analysisResult := initialAnalysisResult;
     mounted := true;
     effectJob := None;
     pollRef := None;
     intervals := ∅;
     nextInterval := 1%positive;
     inflight := ∅;
     nextRequest := 0;
     trace := [] |}.

Definition reachable (w : World) : Prop := ∃ es, w = run es initialWorld.

(** ** Vocabulary of the properties *)

(** The denormalised copies the aggregation keeps next to [result]. *)
Definition derivedKeys : list string :=
  ["triage"; "note"; "citations"; "trials"; "treatment_recommendations"].

(** The keys [startSubmit] resets. *)
Definition clearedKeys : list string := ["jobId"; "status"; "result"].

(** A field counts as unset when it is absent or holds an empty value
    ([undefined], [null], or the initial empty array). *)
Definition unset (v : option JSValue) : Prop :=
  v = None ∨ v = Some JUndefined ∨ v = Some JNull ∨ v = Some (JArr []).

(** The derived fields are the projections of the stored [result]. *)
Definition derived_from_result (s : AnalysisResult) : Prop :=
  ∃ res, s !! "result" = Some res
         ∧ Forall (λ k, s !! k = Some (js_opt_get res k)) derivedKeys.

(** What every reachable store satisfies: [result] was reset to [null] by
    a submission, or the derived fields belong to it. *)
Definition result_null_or_derived (s : AnalysisResult) : Prop :=
  s !! "result" = Some JNull ∨ derived_from_result s.

(** Every live timer is the one in [pollRef] and polls the job of the
    last effect run, which is the store's job while the Dashboard is on
    screen. *)
Definition timers_current (w : World) : Prop :=
  (∀ t job, intervals w !! t = Some job →
            pollRef w = Some t ∧ effectJob w = Some job)
  ∧ effectJob w = (if mounted w then active_job (analysisResult w) else None).

Definition is_result_request (job : string) (o : Obs) : bool :=
  match o with
  | Sent _ (GetResult job') => bool_decide (job' = job)
  | _ => false
  end.

(** Number of aggregations invoked for [job]: result requests sent. *)
Fixpoint result_requests (job : string) (tr : list Obs) : nat :=
  match tr with
  | [] => 0
  | o :: tr' => (if is_result_request job o then 1 else 0) + result_requests job tr'
  end.

Definition is_status_request (job : string) (o : Obs) : bool :=
  match o with
  | Sent _ (GetStatus job') => bool_decide (job' = job)
  | _ => false
  end.

(** The status response read by [poll] says ['completed']. *)
Definition says_completed (statusResp : JSValue) : bool :=
  match js_get statusResp "status" with
  | Some s => js_is_string s "completed"
  | None => false
  end.

(** Event [e] delivers to a pending poll of [job] a status response that
    says ['completed']. *)
Definition observes_completed (job : string) (e : Event) (w : World) : bool :=
  match e with
  | FetchSettled r (Resolved statusResp) =>
      match inflight w !! r with
      | Some (AwaitStatus job') =>
          bool_decide (job' = job) && says_completed statusResp
      | _ => false
      end
  | _ => false
  end.

Fixpoint completed_observations (job : string) (es : list Event) (w : World)
  : nat :=
  match es with
  | [] => 0
  | e :: es' =>
      (if observes_completed job e w then 1 else 0)
      + completed_observations job es' (step e w)
  end.

Definition failed_submit (resp : SubmitResponse) : Prop :=
  resp = SubmitRejected ∨ ∃ code text, resp = SubmitNotOk code text.

(** *** The claims the code departs from, as the specification words them *)

(** A response for a job that is no longer the store's job leaves the
    store alone. *)
Definition stale_responses_discarded : Prop :=
  ∀ w r jobA jobB resp,
    reachable w →
    inflight w !! r = Some (AwaitStatus jobA)
    ∨ inflight w !! r = Some (AwaitResult jobA) →
    active_job (analysisResult w) = Some jobB →
    jobB ≠ jobA →
    analysisResult (step (FetchSettled r resp) w) = analysisResult w.

(** The derived fields are all unset or all taken from the stored
    [result]. *)
Definition derived_unset_or_from_result (s : AnalysisResult) : Prop :=
  Forall (λ k, unset (s !! k)) derivedKeys ∨ derived_from_result s.

(** A submission empties the job fields and the derived fields. *)
Definition submit_clears_derived : Prop :=
  ∀ w, reachable w →
       canSubmit (patientData w) = true →
       Forall (λ k, unset (analysisResult (step ClickSubmit w) !! k))
              (clearedKeys ++ derivedKeys).

(** One aggregation per job identifier that was seen completed, none
    otherwise. *)
Definition aggregated_exactly_once : Prop :=
  ∀ es job,
    result_requests job (trace (run es initialWorld))
    = if decide (0 < completed_observations job es initialWorld) then 1 else 0.

(** ** Scenarios *)

Definition scanFile : File := MkFile "scan.nii".

Definition statusDoc (s : string) (progress : float) : JSValue :=
  JObj {[ "status" := JStr s; "progress" := JNum progress ]}.

Definition triageA : JSValue :=
  JObj {[ "risk_tier" := JStr "HIGH"; "confidence_score" := JNum 0.75 ]}.

Definition resultA : JSValue :=
  JObj {[ "triage" := triageA;
          "note" := JObj {[ "imaging_findings" := JStr "findings of job A" ]};
          "citations" := JArr [JStr "citation of job A"];
          "trials" := JArr [JStr "trial of job A"];
          "treatment_recommendations" := JStr "recommendations of job A" ]}.

Definition resultRespA : JSValue := JObj {[ "result" := resultA ]}.

(** A file is chosen, the job is created as ["A"]; the effect sends the
    immediate status request 1 and starts interval 1. *)
Definition jobA_submitted : list Event :=
  [SelectFiles [scanFile]; ClickSubmit; SubmitSettled 0 (SubmitOk "A")].

(** Job ["A"] completes and its result (request 2) is merged. *)
Definition jobA_completed : list Event :=
  jobA_submitted
  ++ [FetchSettled 1 (Resolved (statusDoc "completed" 100));
      FetchSettled 2 (Resolved resultRespA)].

(** While status request 1 of ["A"] is still in flight, a second
    submission (request 2) creates job ["B"]. *)
Definition jobB_supersedes_A : list Event :=
  jobA_submitted ++ [ClickSubmit; SubmitSettled 2 (SubmitOk "B")].

(** The first status response of ["A"] says ['failed']. *)
Definition jobA_failed : list Event :=
  jobA_submitted ++ [FetchSettled 1 (Resolved (statusDoc "failed" 0))].

(** Interval 1 fires before status request 1 has returned; both polls
    then see ['completed']. *)
Definition overlapping_polls : list Event :=
  jobA_submitted
  ++ [Tick 1;
      FetchSettled 1 (Resolved (statusDoc "completed" 100));
      FetchSettled 2 (Resolved (statusDoc "completed" 100))].

(** ** AppContext.tsx: clearAll *)

(** [clearAll]: both stores go back to their initial values. *)
Definition clearAll (w : World) : World :=
  with_analysisResult (λ _, initialAnalysisResult)
    (with_patientData (λ _, initialPatientData) w).

(** ** App.tsx: the header status *)

(** [status?.status === s] *)
Definition status_is (status : JSValue) (s : string) : bool :=
  js_is_string (js_opt_get status "status") s.

Definition getSystemStatus (status : JSValue) : string :=
  if status_is status "running" then "Processing"
  else if status_is status "completed" then "Ready"
  else if status_is status "failed" then "Error"
  else "Ready".

Definition getStatusColor (status : JSValue) : string :=
  if status_is status "running" then "bg-yellow-500"
  else if status_is status "completed" then "bg-green-500"
  else if status_is status "failed" then "bg-red-500"
  else "bg-green-500".

(** ** Trials page: truthiness, request data, grouping, saved trials *)

(** A number is falsy when it is [0], [-0] or [NaN]. *)
Definition float_falsy (n : float) : bool :=
  PrimFloat.eqb n 0 || negb (PrimFloat.eqb n n).

Definition js_truthy (v : JSValue) : bool :=
  match v with
  | JUndefined | JNull => false
  | JBool b => b
  | JNum n => negb (float_falsy n)
  | JStr s => negb (bool_decide (s = ""))
  | JArr _ | JObj _ => true
  end.

(** [a || b] *)
Definition js_or (a b : JSValue) : JSValue := if js_truthy a then a else b.

(** The value of a [number | ""] field. *)
Definition js_of_num (v : NumOrEmpty) : JSValue :=
  match v with
  | Empty => JStr ""
  | Num n => JNum n
  end.

(** [requestData] of [fetchMatchedTrials]. *)
Definition trialsRequestData (result : JSValue) (pd : PatientData) : JSValue :=
  let riskTier :=
    js_or (js_opt_get (js_opt_get result "triage") "risk_tier") (JStr "MODERATE") in
  let imagingFindings :=
    js_or (js_opt_get (js_opt_get result "note") "imaging_findings") (JObj ∅) in
  JObj {[ "risk_tier" := riskTier;
          "imaging_findings" := imagingFindings;
          "moca_score" := js_or (js_of_num (moca pd)) (JNum 24);
          "age" := js_or (js_of_num (age pd)) (JNum 72);
          "sex" := js_or (JStr (sex pd)) (JStr "M") ]}.

Record Trial := {
  nct_id : string;
  title : string;
  summary : string;
  status : string;
  locations : list string;
  url : string;
  match_reason : string;
  match_score : string;        (* 'high' | 'medium' | 'low' by type; any string at run time *)
  phase : string;
  citations : option (list JSValue)
}.

Record GroupedTrials := {
  high : list Trial;
  medium : list Trial;
  low : list Trial
}.

Definition groupedTrials (trials : list Trial) : GroupedTrials :=
  {| high := filter (λ t, match_score t = "high") trials;
     medium := filter (λ t, match_score t = "medium") trials;
     low := filter (λ t, match_score t = "low") trials |}.

(** [trials.length] *)
Definition totalTrials (trials : list Trial) : nat := length trials.

Inductive ToastType := success | error.

Record Toast := { type : ToastType; message : string }.

(** [handleSaveTrial]: the new set of saved identifiers and the toast
    shown (its three-second timeout is not modelled). *)
Definition handleSaveTrial (trialId : string) (savedTrials : gset string)
  : gset string * Toast :=
  if decide (trialId ∈ savedTrials)
  then (savedTrials ∖ {[ trialId ]},
        {| type := success; message := "Trial removed from saved list" |})
  else ({[ trialId ]} ∪ savedTrials,
        {| type := success; message := "Trial saved successfully!" |}).

(** ** Vocabulary of the further properties *)

(** Number of status requests sent for [job]. *)
Fixpoint status_requests (job : string) (tr : list Obs) : nat :=
  match tr with
  | [] => 0
  | o :: tr' => (if is_status_request job o then 1 else 0) + status_requests job tr'
  end.

(** The job identifiers the service returned in create-job responses. *)
Fixpoint created_jobs (es : list Event) : list string :=
  match es with
  | [] => []
  | SubmitSettled _ (SubmitOk job_id) :: es' => job_id :: created_jobs es'
  | _ :: es' => created_jobs es'
  end.

(** The job a request is about, if any. *)
Definition request_job (o : Obs) : option string :=
  match o with
  | Sent _ (GetStatus job) | Sent _ (GetResult job) => Some job
  | _ => None
  end.

Definition continuation_job (k : Continuation) : option string :=
  match k with
  | AwaitStatus job | AwaitResult job => Some job
  | AwaitSubmit _ => None
  end.

(** An intake edit: one of the five input handlers. *)
Definition is_intake_edit (e : Event) : bool :=
  match e with
  | SelectFiles _ | RemoveFile _ | ChangeMoca _ | ChangeAge _ | ChangeSex _ => true
  | _ => false
  end.

Definition is_demo_click (e : Event) : bool :=
  match e with
  | ClickDemoHealthy | ClickDemoPathology => true
  | _ => false
  end.

(** Every job named by the store, by a pending poll or by a request in
    the trace belongs to [known]. *)
Definition jobs_known (known : list string) (w : World) : Prop :=
  (∀ j, active_job (analysisResult w) = Some j → j ∈ known)
  ∧ (∀ r k j, inflight w !! r = Some k → continuation_job k = Some j → j ∈ known)
  ∧ (∀ o j, o ∈ trace w → request_job o = Some j → j ∈ known).

(** Where the job of a new poll request can come from: a live timer or a
    pending status poll. *)
Definition job_in_use (j : string) (w : World) : Prop :=
  (∃ t, intervals w !! t = Some j) ∨ (∃ r, inflight w !! r = Some (AwaitStatus j)).

(** ** Vocabulary of the revised properties *)

(** The five derived fields hold the values of [initialAnalysisResult]. *)
Definition derived_initial (s : AnalysisResult) : Prop :=
  Forall (λ k, s !! k = initialAnalysisResult !! k) derivedKeys.

(** The five derived fields are the projections of the document [res]. *)
Definition derived_of (res : JSValue) (s : AnalysisResult) : Prop :=
  Forall (λ k, s !! k = Some (js_opt_get res k)) derivedKeys.

(** The derived fields come from one snapshot: they are all initial, with
    [result] null, or they are all projections of a single document, and
    [result] is that document or has been reset to [null]. *)
Definition one_snapshot (s : AnalysisResult) : Prop :=
  (s !! "result" = Some JNull ∧ derived_initial s)
  ∨ ∃ res, derived_of res s
           ∧ (s !! "result" = Some res ∨ s !! "result" = Some JNull).

(** A settled request: the only events that resume a handler after an
    [await]. *)
Definition is_settlement (e : Event) : bool :=
  match e with
  | SubmitSettled _ _ | FetchSettled _ _ => true
  | _ => false
  end.

(** The failure claim as the specification words it: whenever the
    create-job request of [startSubmit] fails, the job fields are all
    [null] afterwards. *)
Definition failed_submit_keeps_cleared : Prop :=
  ∀ w r resp,
    reachable w →
    inflight w !! r = Some (AwaitSubmit StartSubmit) →
    failed_submit resp →
    Forall (λ k, analysisResult (step (SubmitSettled r resp) w) !! k = Some JNull)
           clearedKeys.

(** Job ["A"] is polling with status request 1 in flight; a second
    submission (request 2) is sent; the late response of ["A"] arrives
    before the create-job request has been answered. *)
Definition late_poll_during_resubmit : list Event :=
  jobA_submitted
  ++ [ClickSubmit; FetchSettled 1 (Resolved (statusDoc "running" 40))].

(** A value React accepts as a child: objects are refused, arrays are
    rendered element by element. *)
Fixpoint valid_child (v : JSValue) : bool :=
  match v with
  | JObj _ => false
  | JArr l => forallb valid_child l
  | _ => true
  end.

(** The progress panel of the Dashboard prints [status.progress] and
    [status.status] as children. *)
Definition status_renders (status : JSValue) : bool :=
  valid_child (js_opt_get status "progress")
  && valid_child (js_opt_get status "status").

(** ** Proof automation for the world record *)

Ltac wsimpl :=
  cbn [patientData analysisResult mounted effectJob pollRef intervals
       nextInterval inflight nextRequest trace
       with_patientData with_analysisResult fetch settle console_error
       setInterval set_effectJob set_mounted poll] in *.

Ltac open_handlers :=
  unfold handle, startSubmit, useDemoCase, useDemoPathology, submitSettled,
    onSelectFiles, removeFile, pollStatusSettled, pollResultSettled,
    unmount in *.

Ltac new_request :=
  repeat match goal with
    | |- ∀ _, _ => intro
    | H : <[_ := _]> _ !! _ = Some _ |- _ =>
        apply lookup_insert_Some in H; destruct H as [[<- <-]|[_ H]]
    | H : delete _ _ !! _ = Some _ |- _ =>
        apply lookup_delete_Some in H; destruct H as [_ H]
    | H : _ ∈ _ ++ [_] |- _ =>
        apply elem_of_app in H; destruct H as [H|H];
        [|apply list_elem_of_singleton in H; subst]
    end.

(** ** The store: partial merge *)

Lemma setAnalysisResult_lookup (p s : gmap string JSValue) (k : string) :
  setAnalysisResult p s !! k
  = match p !! k with Some v => Some v | None => s !! k end.
Proof.
  unfold setAnalysisResult. rewrite lookup_union.
  destruct (p !! k) as [v|]; destruct (s !! k); reflexivity.
Qed.

(** C7: a partial merge replaces exactly the keys the partial names and
    leaves every other field as it was; merging [{triage: X}] into
    [{note: N, trials: T}] gives [{note: N, trials: T, triage: X}]. *)
Theorem mergePartial_frame :
  (∀ (s p : gmap string JSValue) (k : string),
      setAnalysisResult p s !! k
      = match p !! k with Some v => Some v | None => s !! k end)
  ∧ (∀ N T X : JSValue,
        setAnalysisResult {[ "triage" := X ]} {[ "note" := N; "trials" := T ]}
        = {[ "note" := N; "trials" := T; "triage" := X ]}).
Proof.
  split.
  - intros s p k. apply setAnalysisResult_lookup.
  - intros N T X. apply map_eq. intros k.
    rewrite setAnalysisResult_lookup.
    destruct (decide (k = "triage")) as [->|Hk].
    + reflexivity.
    + rewrite lookup_singleton_ne by congruence.
      destruct (decide (k = "note")) as [->|Hn]; [reflexivity|].
      rewrite !(lookup_insert_ne _ "note") by congruence.
      destruct (decide (k = "trials")) as [->|Ht].
      * rewrite lookup_singleton_eq, lookup_insert_eq. reflexivity.
      * rewrite lookup_singleton_ne by congruence.
        rewrite lookup_insert_ne by congruence.
        rewrite lookup_singleton_ne by congruence. reflexivity.
Qed.

(** C10: both merge setters are idempotent and have the empty partial as
    identity. *)
Theorem merge_idempotent_identity :
  (∀ s p : gmap string JSValue,
      setAnalysisResult p (setAnalysisResult p s) = setAnalysisResult p s)
  ∧ (∀ s : gmap string JSValue, setAnalysisResult ∅ s = s)
  ∧ (∀ (pd : PatientData) (d : PartialPatientData),
        setPatientData d (setPatientData d pd) = setPatientData d pd)
  ∧ (∀ pd : PatientData, setPatientData noPatientFields pd = pd).
Proof.
  repeat split.
  - intros s p. unfold setAnalysisResult.
    rewrite (assoc_L (∪)). f_equal. apply map_eq. intros k.
    rewrite lookup_union. destruct (p !! k); reflexivity.
  - intros s. unfold setAnalysisResult. apply (left_id_L ∅ (∪)).
  - intros pd [a m x fs]. unfold setPatientData. simpl.
    destruct a, m, x, fs; reflexivity.
  - intros [a m x fs]. reflexivity.
Qed.

(** ** Field-wise reading of the world operations *)

Lemma clearPollRef_fields w :
  patientData (clearPollRef w) = patientData w
  ∧ analysisResult (clearPollRef w) = analysisResult w
  ∧ mounted (clearPollRef w) = mounted w
  ∧ effectJob (clearPollRef w) = effectJob w
  ∧ inflight (clearPollRef w) = inflight w
  ∧ nextRequest (clearPollRef w) = nextRequest w
  ∧ trace (clearPollRef w) = trace w
  ∧ pollRef (clearPollRef w) = None.
Proof.
  unfold clearPollRef. destruct (pollRef w) eqn:E; wsimpl; auto 10.
Qed.

Lemma clearPollRef_analysisResult w :
  analysisResult (clearPollRef w) = analysisResult w.
Proof. apply clearPollRef_fields. Qed.

Lemma clearPollRef_trace w : trace (clearPollRef w) = trace w.
Proof. apply clearPollRef_fields. Qed.

Lemma commit_analysisResult w : analysisResult (commit w) = analysisResult w.
Proof.
  unfold commit; repeat case_match; wsimpl;
    destruct (clearPollRef_fields w) as (?&?&?&?&?&?&?&?); congruence.
Qed.

Lemma commit_patientData w : patientData (commit w) = patientData w.
Proof.
  unfold commit; repeat case_match; wsimpl;
    destruct (clearPollRef_fields w) as (?&?&?&?&?&?&?&?); congruence.
Qed.

Lemma commit_mounted w : mounted (commit w) = mounted w.
Proof.
  unfold commit; repeat case_match; wsimpl;
    destruct (clearPollRef_fields w) as (?&?&?&?&?&?&?&?); congruence.
Qed.

(** A world whose effect already ran for the store's job is left alone. *)
Lemma commit_stable w :
  effectJob w = (if mounted w then active_job (analysisResult w) else None) →
  commit w = w.
Proof.
  intros H. unfold commit. destruct (mounted w); [|reflexivity].
  rewrite decide_True by exact H. reflexivity.
Qed.

(** The commit sends at most the immediate status request of a new
    effect run. *)
Lemma commit_trace w :
  trace (commit w) = trace w
  ∨ ∃ job, active_job (analysisResult w) = Some job
           ∧ trace (commit w) = trace w ++ [Sent (nextRequest w) (GetStatus job)].
Proof.
  unfold commit. destruct (mounted w); [|by left].
  case_decide; [by left|].
  destruct (active_job (analysisResult w)) as [job|] eqn:Hj.
  - right. exists job. split; [reflexivity|].
    destruct (effectJob w); wsimpl; [|reflexivity].
    destruct (clearPollRef_fields w) as (_ & _ & _ & _ & _ & -> & -> & _).
    reflexivity.
  - left. destruct (effectJob w); wsimpl; [|reflexivity].
    apply clearPollRef_fields.
Qed.

(** Under the ownership of timers by [pollRef], the guarded
    [clearInterval] leaves no timer behind. *)
Lemma clearPollRef_intervals w :
  (∀ t job, intervals w !! t = Some job →
            pollRef w = Some t ∧ effectJob w = Some job) →
  intervals (clearPollRef w) = ∅.
Proof.
  intros Hown. apply map_eq. intros t'. rewrite lookup_empty.
  unfold clearPollRef. destruct (pollRef w) as [t|] eqn:Hp; wsimpl.
  - destruct (decide (t = t')) as [->|Hne].
    + apply lookup_delete_eq.
    + rewrite lookup_delete_ne by exact Hne.
      destruct (intervals w !! t') eqn:Ht; [|reflexivity].
      apply Hown in Ht. destruct Ht as [Ht _]. congruence.
  - destruct (intervals w !! t') eqn:Ht; [|reflexivity].
    apply Hown in Ht. destruct Ht as [Ht _]. congruence.
Qed.

Lemma no_effect_no_timers w :
  (∀ t job, intervals w !! t = Some job →
            pollRef w = Some t ∧ effectJob w = Some job) →
  effectJob w = None →
  intervals w = ∅.
Proof.
  intros Hown He. apply map_eq. intros t'. rewrite lookup_empty.
  destruct (intervals w !! t') eqn:Ht; [|reflexivity].
  apply Hown in Ht. destruct Ht as [_ Ht]. congruence.
Qed.

Lemma commit_timers_current w :
  (∀ t job, intervals w !! t = Some job →
            pollRef w = Some t ∧ effectJob w = Some job) →
  (mounted w = false → effectJob w = None) →
  timers_current (commit w).
Proof.
  intros Hown Hoff. unfold timers_current, commit.
  destruct (mounted w) eqn:Hm; [|rewrite Hm; auto].
  case_decide as Hd; [rewrite Hm; auto|].
  set (w1 := match effectJob w with Some _ => clearPollRef w | None => w end).
  assert (intervals w1 = ∅ ∧ mounted w1 = true
          ∧ analysisResult w1 = analysisResult w) as (Hi & Hm1 & Hs1).
  { subst w1. pose proof (clearPollRef_intervals w Hown) as Hc.
    pose proof (no_effect_no_timers w Hown) as Hn.
    destruct (effectJob w) eqn:He.
    - destruct (clearPollRef_fields w) as (_ & -> & -> & _). auto.
    - auto. }
  destruct (active_job (analysisResult w)) as [job|] eqn:Hj; wsimpl;
    rewrite Hi, Hm1, Hs1, Hj; (split; [|reflexivity]); intros t job'.
  - rewrite lookup_insert. case_decide; [|rewrite lookup_empty; discriminate].
    intros [= <-]. subst t. auto.
  - rewrite lookup_empty. discriminate.
Qed.

(** What a handler segment can do to the timer fields: nothing, the
    guarded [clearInterval], or the unmount cleanup. *)
Lemma handle_timer_fields e w :
  (intervals (handle e w) = intervals w
   ∧ pollRef (handle e w) = pollRef w
   ∧ effectJob (handle e w) = effectJob w
   ∧ mounted (handle e w) = mounted w)
  ∨ (intervals (handle e w) = intervals (clearPollRef w)
     ∧ pollRef (handle e w) = None
     ∧ effectJob (handle e w) = effectJob w
     ∧ mounted (handle e w) = mounted w)
  ∨ (effectJob (handle e w) = None
     ∧ mounted (handle e w) = false
     ∧ (intervals (handle e w) = intervals (clearPollRef w)
        ∨ effectJob w = None ∧ intervals (handle e w) = intervals w
                              ∧ pollRef (handle e w) = pollRef w)).
Proof.
  destruct e; open_handlers; repeat case_match; wsimpl; auto 10;
    try (right; left; unfold clearPollRef; wsimpl;
         destruct (pollRef w) eqn:?; wsimpl; auto 10; fail);
    try (right; right; unfold clearPollRef; wsimpl;
         destruct (pollRef w) eqn:?; wsimpl; auto 10; fail).
Qed.

Lemma step_timers_current e w : timers_current w → timers_current (step e w).
Proof.
  intros [Hown Heff]. unfold step. apply commit_timers_current.
  - destruct (handle_timer_fields e w)
      as [(Hi & Hp & He & _)|[(Hi & Hp & He & _)|(He & _ & Hi)]].
    + rewrite Hi, Hp, He. exact Hown.
    + rewrite Hi, (clearPollRef_intervals w Hown). intros t job.
      rewrite lookup_empty. discriminate.
    + intros t job. destruct Hi as [Hi|(He0 & Hi & _)]; rewrite Hi.
      * rewrite (clearPollRef_intervals w Hown), lookup_empty. discriminate.
      * rewrite (no_effect_no_timers w Hown He0), lookup_empty. discriminate.
  - destruct (handle_timer_fields e w)
      as [(_ & _ & He & Hm)|[(_ & _ & He & Hm)|(He & _)]].
    + rewrite He, Hm. intros Hf. rewrite Heff, Hf. reflexivity.
    + rewrite He, Hm. intros Hf. rewrite Heff, Hf. reflexivity.
    + auto.
Qed.

(** ** Reachable worlds *)

Lemma run_snoc es e w : run (es ++ [e]) w = step e (run es w).
Proof. unfold run. rewrite fold_left_app. reflexivity. Qed.

Lemma run_app es1 es2 w : run (es1 ++ es2) w = run es2 (run es1 w).
Proof. unfold run. apply fold_left_app. Qed.

Lemma reachable_initial : reachable initialWorld.
Proof. exists []. reflexivity. Qed.

Lemma reachable_step e w : reachable w → reachable (step e w).
Proof. intros [es ->]. exists (es ++ [e]). symmetry. apply run_snoc. Qed.

Lemma reachable_run es : reachable (run es initialWorld).
Proof. exists es. reflexivity. Qed.

Lemma reachable_run_from es w : reachable w → reachable (run es w).
Proof.
  revert w. induction es as [|e es IH]; intros w Hw; [exact Hw|].
  change (run (e :: es) w) with (run es (step e w)).
  apply IH, reachable_step, Hw.
Qed.

Lemma reachable_invariant (P : World → Prop) :
  P initialWorld →
  (∀ e w, reachable w → P w → P (step e w)) →
  ∀ w, reachable w → P w.
Proof.
  intros H0 Hstep w [es ->]. induction es as [|e es IH] using rev_ind.
  - exact H0.
  - rewrite run_snoc. apply Hstep; [apply reachable_run | exact IH].
Qed.

Lemma reachable_timers_current w : reachable w → timers_current w.
Proof.
  apply reachable_invariant.
  - split; [|reflexivity]. intros t job. cbn [intervals initialWorld].
    rewrite lookup_empty. discriminate.
  - intros e w' _. apply step_timers_current.
Qed.

Lemma reachable_commit_stable w : reachable w → commit w = w.
Proof.
  intros H. apply commit_stable. apply (reachable_timers_current w H).
Qed.

(** ** What a step writes into the store *)

(** Every handler segment leaves the store alone or performs one of the
    four merges of the source. *)
Lemma handle_store e w :
  analysisResult (handle e w) = analysisResult w
  ∨ analysisResult (handle e w)
    = setAnalysisResult clearedJob (analysisResult w)
  ∨ (∃ r job_id, e = SubmitSettled r (SubmitOk job_id)
       ∧ analysisResult (handle e w)
         = setAnalysisResult {[ "jobId" := JStr job_id ]} (analysisResult w))
  ∨ (∃ r statusResp job,
        e = FetchSettled r (Resolved statusResp)
        ∧ inflight w !! r = Some (AwaitStatus job)
        ∧ analysisResult (handle e w)
          = setAnalysisResult {[ "status" := statusResp ]} (analysisResult w))
  ∨ (∃ r resultResp job result,
        e = FetchSettled r (Resolved resultResp)
        ∧ inflight w !! r = Some (AwaitResult job)
        ∧ js_get resultResp "result" = Some result
        ∧ analysisResult (handle e w)
          = setAnalysisResult (aggregate result) (analysisResult w)).
Proof.
  destruct e; open_handlers; repeat case_match; subst; wsimpl;
    rewrite ?clearPollRef_analysisResult; wsimpl; eauto 12.
Qed.

(** A settled poll request writes [status], or the aggregate, or nothing. *)
Lemma fetchSettled_store r resp w :
  analysisResult (handle (FetchSettled r resp) w) = analysisResult w
  ∨ (∃ statusResp,
        analysisResult (handle (FetchSettled r resp) w)
        = setAnalysisResult {[ "status" := statusResp ]} (analysisResult w))
  ∨ (∃ result,
        analysisResult (handle (FetchSettled r resp) w)
        = setAnalysisResult (aggregate result) (analysisResult w)).
Proof.
  unfold handle.
  destruct (inflight w !! r) as [[who|job|job]|];
    [left; reflexivity| | |left; reflexivity].
  - unfold pollStatusSettled. destruct resp as [|v]; [left; reflexivity|].
    right; left. exists v. repeat case_match; wsimpl; reflexivity.
  - unfold pollResultSettled. destruct resp as [|v]; [left; reflexivity|].
    destruct (js_get v "result") as [res|]; [|left; reflexivity].
    right; right. exists res. rewrite clearPollRef_analysisResult. reflexivity.
Qed.

Lemma step_store e w : analysisResult (step e w) = analysisResult (handle e w).
Proof. apply commit_analysisResult. Qed.

(** A merge that names neither [result] nor a derived key keeps the
    invariant; so does one that resets [result]; so does the aggregation. *)
Lemma result_null_or_derived_frame p s :
  p !! "result" = None →
  Forall (λ k, p !! k = None) derivedKeys →
  result_null_or_derived s →
  result_null_or_derived (setAnalysisResult p s).
Proof.
  intros Hr Hd [Hn|(res & Hres & Hk)].
  - left. rewrite setAnalysisResult_lookup, Hr. exact Hn.
  - right. exists res. split.
    + rewrite setAnalysisResult_lookup, Hr. exact Hres.
    + rewrite Forall_forall in *. intros k Hin.
      rewrite setAnalysisResult_lookup, (Hd k Hin). auto.
Qed.

Lemma aggregate_derived result s :
  derived_from_result (setAnalysisResult (aggregate result) s).
Proof.
  exists result. split; [rewrite setAnalysisResult_lookup; reflexivity|].
  repeat (constructor; [rewrite setAnalysisResult_lookup; reflexivity|]).
  constructor.
Qed.

Lemma step_result_null_or_derived e w :
  result_null_or_derived (analysisResult w) →
  result_null_or_derived (analysisResult (step e w)).
Proof.
  intros H. rewrite step_store.
  destruct (handle_store e w)
    as [->|[->|[(r & id & _ & ->)|[(r & v & job & _ & _ & ->)
                                  |(r & v & job & res & _ & _ & _ & ->)]]]].
  - exact H.
  - left. rewrite setAnalysisResult_lookup. reflexivity.
  - apply result_null_or_derived_frame; [reflexivity|repeat constructor|exact H].
  - apply result_null_or_derived_frame; [reflexivity|repeat constructor|exact H].
  - right. apply aggregate_derived.
Qed.

(** ** What a step sends *)

Lemma result_requests_app job tr1 tr2 :
  result_requests job (tr1 ++ tr2)
  = result_requests job tr1 + result_requests job tr2.
Proof. induction tr1 as [|o tr1 IH]; simpl; [reflexivity|]. rewrite IH. lia. Qed.

Lemma commit_result_requests job w :
  result_requests job (trace (commit w)) = result_requests job (trace w).
Proof.
  destruct (commit_trace w) as [->|(job' & _ & ->)]; [reflexivity|].
  rewrite result_requests_app. simpl. lia.
Qed.

Lemma handle_result_requests job e w :
  result_requests job (trace (handle e w))
  = result_requests job (trace w)
    + (if observes_completed job e w then 1 else 0).
Proof.
  destruct e; unfold observes_completed, says_completed; open_handlers;
    repeat case_match; subst; wsimpl;
    rewrite ?clearPollRef_trace;
    wsimpl; rewrite ?result_requests_app; simpl;
    repeat case_bool_decide; simpl; try lia; try congruence.
Qed.

Lemma run_result_requests job es w :
  result_requests job (trace (run es w))
  = result_requests job (trace w) + completed_observations job es w.
Proof.
  revert w. induction es as [|e es IH]; intros w.
  - simpl. lia.
  - change (run (e :: es) w) with (run es (step e w)).
    rewrite IH. unfold step at 1. rewrite commit_result_requests.
    rewrite handle_result_requests. simpl. lia.
Qed.

(** ** The submission click *)

Lemma active_job_cleared s : active_job (setAnalysisResult clearedJob s) = None.
Proof. unfold active_job. rewrite setAnalysisResult_lookup. reflexivity. Qed.

Lemma commit_no_job w :
  active_job (analysisResult w) = None →
  inflight (commit w) = inflight w
  ∧ nextRequest (commit w) = nextRequest w
  ∧ trace (commit w) = trace w.
Proof.
  intros H. unfold commit. rewrite H.
  destruct (mounted w); [|auto]. case_decide; [auto|].
  destruct (effectJob w); wsimpl; [|auto].
  destruct (clearPollRef_fields w) as (_ & _ & _ & _ & -> & -> & -> & _). auto.
Qed.

Lemma click_submit_step w :
  mounted w = true →
  canSubmit (patientData w) = true →
  analysisResult (step ClickSubmit w)
  = setAnalysisResult clearedJob (analysisResult w)
  ∧ inflight (step ClickSubmit w)
    = <[nextRequest w := AwaitSubmit StartSubmit]> (inflight w)
  ∧ nextRequest (step ClickSubmit w) = S (nextRequest w)
  ∧ trace (step ClickSubmit w)
    = trace w ++ [Sent (nextRequest w) (PostSubmit (submitForm (patientData w)))].
Proof.
  intros Hm Hc. unfold step. rewrite commit_analysisResult.
  unfold handle, startSubmit. rewrite Hm, Hc. cbn [negb].
  match goal with |- context [commit ?x] => set (w1 := x) end.
  destruct (commit_no_job w1) as (-> & -> & ->).
  { subst w1. wsimpl. apply active_job_cleared. }
  subst w1. wsimpl. auto.
Qed.

(** A failed create-job response resumes the handler in its [catch]. *)
Lemma submit_failure_step w r who resp :
  reachable w →
  inflight w !! r = Some (AwaitSubmit who) →
  failed_submit resp →
  step (SubmitSettled r resp) w
  = console_error (failureLabel who) (settle r w).
Proof.
  intros Hw Hr Hf. unfold step, handle. rewrite Hr.
  assert (submitSettled who resp (settle r w)
          = console_error (failureLabel who) (settle r w)) as ->.
  { destruct Hf as [->|(code & text & ->)]; reflexivity. }
  apply commit_stable. wsimpl. apply (reachable_timers_current w Hw).
Qed.

(** ** Submission guard and payload *)

(** C5: [canSubmit] holds exactly when a file is present, the MoCA score
    is unset or within 0..30, and the age is unset or positive; one file
    with MoCA 35 is refused, one file with MoCA 24 and age 72 is accepted;
    when the guard fails [startSubmit] returns with no effect at all. *)
Theorem canSubmit_guard :
  (∀ pd,
      canSubmit pd = true ↔
      files pd ≠ []
      ∧ (moca pd = Empty
         ∨ ∃ m, moca pd = Num m
                ∧ PrimFloat.leb 0 m = true ∧ PrimFloat.leb m 30 = true)
      ∧ (age pd = Empty ∨ ∃ a, age pd = Num a ∧ PrimFloat.ltb 0 a = true))
  ∧ (∀ f a s,
        canSubmit {| age := a; moca := Num 35; sex := s; files := [f] |} = false)
  ∧ (∀ f s,
        canSubmit {| age := Num 72; moca := Num 24; sex := s; files := [f] |}
        = true)
  ∧ (∀ w, canSubmit (patientData w) = false →
          startSubmit w = w ∧ handle ClickSubmit w = w)
  ∧ (∀ w, reachable w → canSubmit (patientData w) = false →
          step ClickSubmit w = w).
Proof.
  split; [|split; [|split; [|split]]].
  - intros [a m s fs]. unfold canSubmit. cbn [files moca age].
    rewrite !andb_true_iff, bool_decide_eq_true. split.
    + intros [[Hf Hm] Ha]. split; [|split].
      * destruct fs; [simpl in Hf; lia | discriminate].
      * destruct m as [|m]; [by left|right]. exists m.
        apply andb_true_iff in Hm. auto.
      * destruct a as [|a]; [by left|right]. eauto.
    + intros (Hf & Hm & Ha). split; [split|].
      * destruct fs; [congruence | simpl; lia].
      * destruct Hm as [->|(m' & -> & H1 & H2)]; [reflexivity|].
        rewrite H1, H2. reflexivity.
      * destruct Ha as [->|(a' & -> & H1)]; [reflexivity | exact H1].
  - intros f a s. unfold canSubmit. cbn [files moca age].
    replace (PrimFloat.leb 35 30) with false by reflexivity.
    rewrite andb_false_r. reflexivity.
  - intros f s. reflexivity.
  - intros w Hc. assert (startSubmit w = w) as Hs.
    { unfold startSubmit. rewrite Hc. reflexivity. }
    split; [exact Hs|]. unfold handle. rewrite Hs. destruct (mounted w); reflexivity.
  - intros w Hw Hc. unfold step, handle, startSubmit. rewrite Hc. cbn [negb].
    replace (if mounted w then w else w) with w by (destruct (mounted w); reflexivity).
    apply reachable_commit_stable, Hw.
Qed.

Lemma canSubmit_guard_witness : step ClickSubmit initialWorld = initialWorld.
Proof.
  destruct canSubmit_guard as (_ & _ & _ & _ & H).
  apply H; [exists []; reflexivity | reflexivity].
Defined.

(** C9: with the guard satisfied, one click sends exactly one request, the
    create-job request, whose form holds the files, then [moca] as
    [{total}] with 24 for a missing score, then [meta] as [{age, sex}]
    with 70 for a missing age. *)
Theorem startSubmit_payload w a m s fs :
  mounted w = true →
  patientData w = {| age := a; moca := m; sex := s; files := fs |} →
  canSubmit (patientData w) = true →
  trace (step ClickSubmit w)
  = trace w
    ++ [Sent (nextRequest w)
          (PostSubmit
             (map (λ f, ("files", FormFile f)) fs
              ++ [ ("moca",
                    FormJson
                      (JObj {[ "total" :=
                                 JNum (match m with Num x => x | Empty => 24 end) ]}));
                   ("meta",
                    FormJson
                      (JObj {[ "age" :=
                                 JNum (match a with Num x => x | Empty => 70 end);
                               "sex" := JStr s ]})) ]))]
  ∧ inflight (step ClickSubmit w) !! nextRequest w
    = Some (AwaitSubmit StartSubmit).
Proof.
  intros Hm Hpd Hc.
  destruct (click_submit_step w Hm Hc) as (_ & Hi & _ & Ht).
  rewrite Ht, Hi, Hpd. split; [reflexivity|]. apply lookup_insert_eq.
Qed.

Lemma startSubmit_payload_witness :
  trace (step ClickSubmit (step (SelectFiles [scanFile]) initialWorld))
  = [Sent 0
       (PostSubmit
          [ ("files", FormFile scanFile);
            ("moca", FormJson (JObj {[ "total" := JNum 24 ]}));
            ("meta", FormJson (JObj {[ "age" := JNum 70; "sex" := JStr "F" ]})) ])]
  ∧ inflight (step ClickSubmit (step (SelectFiles [scanFile]) initialWorld)) !! 0
    = Some (AwaitSubmit StartSubmit).
Proof.
  apply (startSubmit_payload (step (SelectFiles [scanFile]) initialWorld)
           Empty Empty "F" [scanFile]); reflexivity.
Defined.

Lemma clearPollRef_nextRequest w : nextRequest (clearPollRef w) = nextRequest w.
Proof. apply clearPollRef_fields. Qed.

Lemma clearPollRef_inflight_eq w : inflight (clearPollRef w) = inflight w.
Proof. apply clearPollRef_fields. Qed.

(** Request numbers are handed out in increasing order, so a step that
    settles nothing leaves every pending request pending. *)
Lemma unsettled_step_keeps_pending e w r k :
  is_settlement e = false →
  r < nextRequest w →
  inflight w !! r = Some k →
  r < nextRequest (step e w) ∧ inflight (step e w) !! r = Some k.
Proof.
  intros He Hlt Hr.
  assert (r < nextRequest (handle e w) ∧ inflight (handle e w) !! r = Some k)
    as [Hlt' Hr'].
  { destruct e; try discriminate He; open_handlers; repeat case_match; subst;
      wsimpl; rewrite ?clearPollRef_nextRequest, ?clearPollRef_inflight_eq;
      wsimpl; rewrite ?lookup_insert_ne by lia; split; auto with lia. }
  unfold step, commit. generalize dependent (handle e w). intros x Hlt' Hr'.
  repeat case_match; wsimpl;
    rewrite ?clearPollRef_nextRequest, ?clearPollRef_inflight_eq;
    rewrite ?lookup_insert_ne by lia; split; auto with lia.
Qed.

Lemma unsettled_step_keeps_cleared e w :
  is_settlement e = false →
  Forall (λ k, analysisResult w !! k = Some JNull) clearedKeys →
  Forall (λ k, analysisResult (step e w) !! k = Some JNull) clearedKeys.
Proof.
  intros He H. rewrite step_store.
  destruct (handle_store e w)
    as [->|[->|[(r & id & -> & _)|[(r & v & job & -> & _)
                                  |(r & v & job & res & -> & _)]]]];
    try discriminate He.
  - exact H.
  - unfold clearedKeys.
    repeat (constructor; [rewrite setAnalysisResult_lookup; reflexivity|]).
    constructor.
Qed.

Lemma unsettled_run_keeps_submission es w r who :
  Forall (λ e, is_settlement e = false) es →
  r < nextRequest w →
  inflight w !! r = Some (AwaitSubmit who) →
  Forall (λ k, analysisResult w !! k = Some JNull) clearedKeys →
  inflight (run es w) !! r = Some (AwaitSubmit who)
  ∧ Forall (λ k, analysisResult (run es w) !! k = Some JNull) clearedKeys.
Proof.
  intros Hes. revert w. induction Hes as [|e es He _ IH]; intros w Hlt Hr Hc.
  - auto.
  - change (run (e :: es) w) with (run es (step e w)).
    destruct (unsettled_step_keeps_pending e w r _ He Hlt Hr) as [Hlt' Hr'].
    apply IH; [exact Hlt'|exact Hr'|].
    apply unsettled_step_keeps_cleared; assumption.
Qed.

(** C8, as worded, fails: between the click and the failure of the
    create-job request the late status response of the earlier job ["A"]
    is applied, so when the failure is caught [status] is not [null]. *)
Lemma late_poll_before_submit_failure :
  let w := run late_poll_during_resubmit initialWorld in
  let failure := SubmitSettled 2 (SubmitNotOk 500 "Internal Server Error") in
  inflight w !! 2 = Some (AwaitSubmit StartSubmit)
  ∧ analysisResult (step failure w) !! "jobId" = Some JNull
  ∧ analysisResult (step failure w) !! "status" = Some (statusDoc "running" 40)
  ∧ trace (step failure w) = trace w ++ [ConsoleError "Submit failed:"]
  ∧ ¬ failed_submit_keeps_cleared.
Proof.
  cbv zeta.
  assert (analysisResult
            (step (SubmitSettled 2 (SubmitNotOk 500 "Internal Server Error"))
               (run late_poll_during_resubmit initialWorld)) !! "status"
          = Some (statusDoc "running" 40)) as Hs by (vm_compute; reflexivity).
  do 4 (split; [vm_compute; reflexivity|]).
  intros H.
  specialize (H (run late_poll_during_resubmit initialWorld) 2
                (SubmitNotOk 500 "Internal Server Error")
                (reachable_run _) eq_refl).
  assert (failed_submit (SubmitNotOk 500 "Internal Server Error")) as Hf
    by (right; exists 500, "Internal Server Error"; reflexivity).
  specialize (H Hf). unfold clearedKeys in H.
  apply Forall_inv_tail, Forall_inv in H. rewrite Hs in H. discriminate H.
Qed.

(** C8, amended: when the create-job request is rejected or answered
    with a non-success status, the failure is caught and logged and the
    handler does nothing else, whatever happened since the click: it
    writes nothing to the store, so no job identifier, and it sends no
    request, so there is no retry.  [jobId], [status] and [result] are
    all [null] after the failure when it directly follows the click and,
    more generally, whenever no other request was settled in between; a
    response applied in between leaves its writes in place. *)
Theorem submit_failure_leaves_store w resp :
  reachable w →
  mounted w = true →
  canSubmit (patientData w) = true →
  failed_submit resp →
  let w1 := step ClickSubmit w in
  let failure := SubmitSettled (nextRequest w) resp in
  (analysisResult (step failure w1) = analysisResult w1
   ∧ Forall (λ k, analysisResult (step failure w1) !! k = Some JNull) clearedKeys
   ∧ active_job (analysisResult (step failure w1)) = None
   ∧ trace (step failure w1) = trace w1 ++ [ConsoleError "Submit failed:"]
   ∧ nextRequest (step failure w1) = nextRequest w1
   ∧ inflight (step failure w1) = delete (nextRequest w) (inflight w1))
  ∧ (∀ es,
        inflight (run es w1) !! nextRequest w = Some (AwaitSubmit StartSubmit) →
        analysisResult (step failure (run es w1)) = analysisResult (run es w1)
        ∧ trace (step failure (run es w1))
          = trace (run es w1) ++ [ConsoleError "Submit failed:"]
        ∧ nextRequest (step failure (run es w1)) = nextRequest (run es w1))
  ∧ (∀ es,
        Forall (λ e, is_settlement e = false) es →
        inflight (run es w1) !! nextRequest w = Some (AwaitSubmit StartSubmit)
        ∧ Forall (λ k, analysisResult (step failure (run es w1)) !! k = Some JNull)
                 clearedKeys
        ∧ trace (step failure (run es w1))
          = trace (run es w1) ++ [ConsoleError "Submit failed:"]).
Proof.
  intros Hw Hm Hc Hf.
  destruct (click_submit_step w Hm Hc) as (Hs & Hi & Hn & Ht). cbv zeta.
  assert (∀ es,
             inflight (run es (step ClickSubmit w)) !! nextRequest w
             = Some (AwaitSubmit StartSubmit) →
             step (SubmitSettled (nextRequest w) resp) (run es (step ClickSubmit w))
             = console_error (failureLabel StartSubmit)
                 (settle (nextRequest w) (run es (step ClickSubmit w)))) as Hfail.
  { intros es Hr. apply submit_failure_step;
      [apply reachable_run_from, reachable_step, Hw|exact Hr|exact Hf]. }
  assert (Forall (λ k, analysisResult (step ClickSubmit w) !! k = Some JNull)
                 clearedKeys) as Hclr.
  { rewrite Hs. unfold clearedKeys.
    repeat (constructor; [rewrite setAnalysisResult_lookup; reflexivity|]).
    constructor. }
  split; [|split].
  - assert (inflight (run [] (step ClickSubmit w)) !! nextRequest w
            = Some (AwaitSubmit StartSubmit)) as H0
      by (cbn [run fold_left]; rewrite Hi; apply lookup_insert_eq).
    apply Hfail in H0. cbn [run fold_left] in H0. rewrite H0.
    wsimpl. split; [reflexivity|]. split; [exact Hclr|].
    rewrite Hs. split; [apply active_job_cleared|auto].
  - intros es Hr. rewrite (Hfail es Hr). wsimpl. auto.
  - intros es Hes.
    destruct (unsettled_run_keeps_submission es (step ClickSubmit w)
                (nextRequest w) StartSubmit Hes) as [Hr Hc'].
    { rewrite Hn. lia. }
    { rewrite Hi. apply lookup_insert_eq. }
    { exact Hclr. }
    split; [exact Hr|]. rewrite (Hfail es Hr). wsimpl. auto.
Qed.

Lemma submit_failure_leaves_store_witness :
  let w := run jobA_submitted initialWorld in
  let w1 := step ClickSubmit w in
  let failure := SubmitSettled 2 (SubmitNotOk 500 "Internal Server Error") in
  (analysisResult (step failure w1) = analysisResult w1
   ∧ Forall (λ k, analysisResult (step failure w1) !! k = Some JNull) clearedKeys
   ∧ active_job (analysisResult (step failure w1)) = None
   ∧ trace (step failure w1) = trace w1 ++ [ConsoleError "Submit failed:"]
   ∧ nextRequest (step failure w1) = nextRequest w1
   ∧ inflight (step failure w1) = delete 2 (inflight w1))
  ∧ Forall (λ k, analysisResult
                   (step failure (run [ChangeMoca (Num 21); Tick 1] w1)) !! k
                 = Some JNull) clearedKeys.
Proof.
  cbv zeta.
  destruct (submit_failure_leaves_store (run jobA_submitted initialWorld)
              (SubmitNotOk 500 "Internal Server Error")) as (H1 & _ & H3).
  - exists jobA_submitted. reflexivity.
  - reflexivity.
  - reflexivity.
  - right. exists 500, "Internal Server Error". reflexivity.
  - split; [exact H1|].
    apply (H3 [ChangeMoca (Num 21); Tick 1]). repeat constructor.
Defined.

(** ** Resubmission *)

(** C4, as worded, fails: after job ["A"] has completed and its result is
    in the store, a new submission resets [result] but the derived
    [triage] of ["A"] is still there. *)
Lemma resubmit_keeps_derived :
  let w := run jobA_completed initialWorld in
  canSubmit (patientData w) = true
  ∧ analysisResult w !! "triage" = Some triageA
  ∧ analysisResult (step ClickSubmit w) !! "result" = Some JNull
  ∧ analysisResult (step ClickSubmit w) !! "triage" = Some triageA
  ∧ ¬ submit_clears_derived.
Proof.
  cbv zeta.
  assert (analysisResult (step ClickSubmit (run jobA_completed initialWorld))
            !! "triage" = Some triageA) as Ht by (vm_compute; reflexivity).
  do 4 (split; [vm_compute; reflexivity|]).
  intros H.
  specialize (H (run jobA_completed initialWorld) (reachable_run _) eq_refl).
  rewrite Forall_forall in H. specialize (H "triage").
  rewrite Ht in H. unfold triageA in H.
  assert ("triage" ∈ clearedKeys ++ derivedKeys) as Hin
    by (cbn [clearedKeys derivedKeys app]; repeat constructor).
  specialize (H Hin).
  destruct H as [H|[H|[H|H]]]; discriminate H.
Qed.

(** C4, amended: a submission sets [jobId], [status] and [result] to
    [null] and leaves every other field of the store, the five derived
    ones included, as it was; the store holds no job identifier until the
    create-job response arrives, which then writes [jobId] and nothing
    else. *)
Theorem startSubmit_clears_job_fields w :
  mounted w = true →
  canSubmit (patientData w) = true →
  let w1 := step ClickSubmit w in
  (∀ k, analysisResult w1 !! k
        = if bool_decide (k ∈ clearedKeys) then Some JNull
          else analysisResult w !! k)
  ∧ active_job (analysisResult w1) = None
  ∧ (∀ job_id,
        analysisResult (step (SubmitSettled (nextRequest w) (SubmitOk job_id)) w1)
        = <["jobId" := JStr job_id]> (analysisResult w1)).
Proof.
  intros Hm Hc. cbv zeta.
  destruct (click_submit_step w Hm Hc) as (Hs & Hi & _ & _).
  split; [|split].
  - intros k. rewrite Hs, setAnalysisResult_lookup. unfold clearedJob, clearedKeys.
    case_bool_decide as Hk.
    + rewrite !elem_of_cons in Hk.
      destruct Hk as [->|[->|[->|Hk]]]; [reflexivity..|].
      by apply elem_of_nil in Hk.
    + rewrite !not_elem_of_cons in Hk. destruct Hk as (H1 & H2 & H3 & _).
      rewrite !lookup_insert_ne by congruence.
      rewrite lookup_singleton_ne by congruence. reflexivity.
  - rewrite Hs. apply active_job_cleared.
  - intros job_id. rewrite step_store. unfold handle. rewrite Hi, lookup_insert_eq.
    unfold submitSettled. wsimpl. unfold setAnalysisResult.
    symmetry. apply insert_union_singleton_l.
Qed.

Lemma startSubmit_clears_job_fields_witness :
  let w := run jobA_completed initialWorld in
  let w1 := step ClickSubmit w in
  (∀ k, analysisResult w1 !! k
        = if bool_decide (k ∈ clearedKeys) then Some JNull
          else analysisResult w !! k)
  ∧ active_job (analysisResult w1) = None
  ∧ (∀ job_id,
        analysisResult (step (SubmitSettled (nextRequest w) (SubmitOk job_id)) w1)
        = <["jobId" := JStr job_id]> (analysisResult w1)).
Proof.
  apply (startSubmit_clears_job_fields (run jobA_completed initialWorld));
    reflexivity.
Defined.

(** ** Result and derived fields *)

(** C3, as worded, fails in a reachable state: after the resubmission
    above the derived fields are set although [result] is [null], so they
    are neither all unset nor taken from the stored [result]. *)
Lemma resubmit_leaves_stale_derived :
  let s := analysisResult (run (jobA_completed ++ [ClickSubmit]) initialWorld) in
  s !! "result" = Some JNull
  ∧ s !! "triage" = Some triageA
  ∧ ¬ derived_unset_or_from_result s.
Proof.
  cbv zeta.
  assert (analysisResult (run (jobA_completed ++ [ClickSubmit]) initialWorld)
            !! "triage" = Some triageA) as Ht by (vm_compute; reflexivity).
  assert (analysisResult (run (jobA_completed ++ [ClickSubmit]) initialWorld)
            !! "result" = Some JNull) as Hr by (vm_compute; reflexivity).
  split; [exact Hr|]. split; [exact Ht|].
  intros [H|(res & Hres & H)].
  - apply Forall_inv in H. rewrite Ht in H. unfold triageA in H.
    destruct H as [H|[H|[H|H]]]; discriminate H.
  - rewrite Hr in Hres. injection Hres as <-.
    apply Forall_inv in H. rewrite Ht in H. discriminate H.
Qed.

Lemma one_snapshot_frame p s :
  Forall (λ k, p !! k = None) derivedKeys →
  p !! "result" = None ∨ p !! "result" = Some JNull →
  one_snapshot s →
  one_snapshot (setAnalysisResult p s).
Proof.
  intros Hd Hr Hs.
  assert (∀ k, k ∈ derivedKeys → setAnalysisResult p s !! k = s !! k) as Hk.
  { intros k Hin. rewrite Forall_forall in Hd.
    rewrite setAnalysisResult_lookup, (Hd k Hin). reflexivity. }
  assert (∀ v, s !! "result" = Some v →
               setAnalysisResult p s !! "result" = Some v
               ∨ setAnalysisResult p s !! "result" = Some JNull) as Hres.
  { intros v Hv. rewrite setAnalysisResult_lookup.
    destruct Hr as [->| ->]; auto. }
  destruct Hs as [[Hn Hi]|(res & Hdr & Hsr)].
  - left. split.
    + destruct (Hres _ Hn) as [H|H]; exact H.
    + unfold derived_initial in *. rewrite Forall_forall in *.
      intros k Hin. rewrite (Hk k Hin). auto.
  - right. exists res. split.
    + unfold derived_of in *. rewrite Forall_forall in *.
      intros k Hin. rewrite (Hk k Hin). auto.
    + destruct Hsr as [Hsr|Hsr]; destruct (Hres _ Hsr); auto.
Qed.

Lemma one_snapshot_aggregate result s :
  one_snapshot (setAnalysisResult (aggregate result) s).
Proof.
  right. exists result. split.
  - unfold derived_of, derivedKeys.
    repeat (constructor; [rewrite setAnalysisResult_lookup; reflexivity|]).
    constructor.
  - left. rewrite setAnalysisResult_lookup. reflexivity.
Qed.

Lemma one_snapshot_step e w :
  one_snapshot (analysisResult w) → one_snapshot (analysisResult (step e w)).
Proof.
  intros H. rewrite step_store.
  destruct (handle_store e w)
    as [->|[->|[(r & id & _ & ->)|[(r & v & job & _ & _ & ->)
                                  |(r & v & job & res & _ & _ & _ & ->)]]]].
  - exact H.
  - apply one_snapshot_frame; [repeat constructor|right; reflexivity|exact H].
  - apply one_snapshot_frame; [repeat constructor|left; reflexivity|exact H].
  - apply one_snapshot_frame; [repeat constructor|left; reflexivity|exact H].
  - apply one_snapshot_aggregate.
Qed.

(** A step changes a derived field only when it is the aggregation. *)
Lemma derived_fields_step e w :
  Forall (λ k, analysisResult (step e w) !! k = analysisResult w !! k)
         derivedKeys
  ∨ ∃ r job resultResp result,
      e = FetchSettled r (Resolved resultResp)
      ∧ inflight w !! r = Some (AwaitResult job)
      ∧ js_get resultResp "result" = Some result
      ∧ analysisResult (step e w)
        = setAnalysisResult (aggregate result) (analysisResult w).
Proof.
  rewrite step_store.
  destruct (handle_store e w)
    as [->|[->|[(r & id & _ & ->)|[(r & v & job & _ & _ & ->)
                                  |(r & v & job & res & He & Hr & Hg & Hs)]]]].
  - left. unfold derivedKeys. repeat constructor.
  - left. unfold derivedKeys.
    repeat (constructor; [rewrite setAnalysisResult_lookup; reflexivity|]).
    constructor.
  - left. unfold derivedKeys.
    repeat (constructor; [rewrite setAnalysisResult_lookup; reflexivity|]).
    constructor.
  - left. unfold derivedKeys.
    repeat (constructor; [rewrite setAnalysisResult_lookup; reflexivity|]).
    constructor.
  - right. exists r, job, v, res. auto.
Qed.

(** C3, amended: in every reachable state the five derived fields come
    from one snapshot, never from two jobs: either they all hold their
    initial values and [result] is [null], or they are all the
    projections of one and the same result document, and the stored
    [result] is that document or [null] (a submission reset it; the
    derived fields then still hold what the last aggregation wrote).
    Only the aggregation step changes a derived field, and it is one
    merge of [result] with the five derived fields, after which they
    belong together. *)
Theorem result_and_derived_consistent w :
  reachable w →
  one_snapshot (analysisResult w)
  ∧ result_null_or_derived (analysisResult w)
  ∧ (∀ e,
        Forall (λ k, analysisResult (step e w) !! k = analysisResult w !! k)
               derivedKeys
        ∨ ∃ r job resultResp result,
            e = FetchSettled r (Resolved resultResp)
            ∧ inflight w !! r = Some (AwaitResult job)
            ∧ js_get resultResp "result" = Some result
            ∧ analysisResult (step e w)
              = setAnalysisResult (aggregate result) (analysisResult w))
  ∧ (∀ r job resultResp result,
        inflight w !! r = Some (AwaitResult job) →
        js_get resultResp "result" = Some result →
        analysisResult (step (FetchSettled r (Resolved resultResp)) w)
        = setAnalysisResult (aggregate result) (analysisResult w)
        ∧ dom (aggregate result) = list_to_set ("result" :: derivedKeys)
        ∧ derived_from_result
            (analysisResult (step (FetchSettled r (Resolved resultResp)) w))).
Proof.
  intros Hw. split; [|split; [|split]].
  - revert w Hw. apply reachable_invariant.
    + left. split; [reflexivity|]. unfold derived_initial, derivedKeys.
      repeat constructor.
    + intros e w _. apply one_snapshot_step.
  - revert w Hw. apply reachable_invariant.
    + left. reflexivity.
    + intros e w _. apply step_result_null_or_derived.
  - intros e. apply derived_fields_step.
  - intros r job resultResp result Hr Hres.
    assert (analysisResult (step (FetchSettled r (Resolved resultResp)) w)
            = setAnalysisResult (aggregate result) (analysisResult w)) as ->.
    { rewrite step_store. unfold handle. rewrite Hr. unfold pollResultSettled.
      rewrite Hres, clearPollRef_analysisResult. reflexivity. }
    split; [reflexivity|]. split; [|apply aggregate_derived].
    unfold aggregate, derivedKeys. rewrite !dom_insert_L, dom_singleton_L.
    cbn [list_to_set foldr]. set_solver.
Qed.

Lemma result_and_derived_consistent_witness :
  let w := run (jobA_completed ++ [ClickSubmit]) initialWorld in
  one_snapshot (analysisResult w)
  ∧ result_null_or_derived (analysisResult w)
  ∧ analysisResult w !! "result" = Some JNull
  ∧ derived_of resultA (analysisResult w).
Proof.
  cbv zeta.
  destruct (result_and_derived_consistent
              (run (jobA_completed ++ [ClickSubmit]) initialWorld))
    as (H1 & H2 & _).
  { eexists. reflexivity. }
  split; [exact H1|]. split; [exact H2|]. split; [vm_compute; reflexivity|].
  unfold derived_of, derivedKeys.
  repeat (constructor; [vm_compute; reflexivity|]). constructor.
Defined.

(** ** Superseded polls *)

(** C1, as worded, fails: with job ["B"] active and status request 1 of
    job ["A"] still in flight, the late response of ["A"] is written into
    the store; when it says ['completed'] the result of ["A"] is fetched
    and merged under ["B"], and the guarded [clearInterval] then stops
    the timer of ["B"]. *)
Lemma stale_response_overwrites_store :
  let w := run jobB_supersedes_A initialWorld in
  let late := FetchSettled 1 (Resolved (statusDoc "completed" 100)) in
  let w' := run [late; FetchSettled 4 (Resolved resultRespA)] w in
  active_job (analysisResult w) = Some "B"
  ∧ inflight w !! 1 = Some (AwaitStatus "A")
  ∧ analysisResult w !! "status" = Some JNull
  ∧ analysisResult (step late w) !! "status" = Some (statusDoc "completed" 100)
  ∧ trace (step late w) = trace w ++ [Sent 4 (GetResult "A")]
  ∧ active_job (analysisResult w') = Some "B"
  ∧ analysisResult w' !! "result" = Some resultA
  ∧ analysisResult w' !! "triage" = Some triageA
  ∧ intervals w = {[ 2%positive := "B" ]}
  ∧ intervals w' = ∅
  ∧ ¬ stale_responses_discarded.
Proof.
  cbv zeta.
  assert (analysisResult (run jobB_supersedes_A initialWorld) !! "status"
          = Some JNull) as H0 by (vm_compute; reflexivity).
  assert (analysisResult
            (step (FetchSettled 1 (Resolved (statusDoc "completed" 100)))
               (run jobB_supersedes_A initialWorld)) !! "status"
          = Some (statusDoc "completed" 100)) as H1 by (vm_compute; reflexivity).
  do 10 (split; [vm_compute; reflexivity|]).
  intros H.
  specialize (H (run jobB_supersedes_A initialWorld) 1 "A" "B"
                (Resolved (statusDoc "completed" 100)) (reachable_run _)).
  rewrite H in H1; [| left; vm_compute; reflexivity | vm_compute; reflexivity
                    | discriminate].
  rewrite H0 in H1. discriminate H1.
Qed.

(** C1, amended: in every reachable state each live timer polls the job
    the store currently names, so a superseded job is no longer polled by
    any timer; a settled status or result request, whatever job it was
    sent for, never changes [jobId] nor any field besides [status],
    [result] and the five derived ones; but the handler compares no job
    identifiers: a resolved status response is always written to
    [status]. *)
Theorem stale_response_effect w :
  reachable w →
  (∀ t job, intervals w !! t = Some job →
            active_job (analysisResult w) = Some job)
  ∧ (∀ r resp k,
        k ∉ "status" :: "result" :: derivedKeys →
        analysisResult (step (FetchSettled r resp) w) !! k
        = analysisResult w !! k)
  ∧ (∀ r resp,
        active_job (analysisResult (step (FetchSettled r resp) w))
        = active_job (analysisResult w))
  ∧ (∀ r job statusResp,
        inflight w !! r = Some (AwaitStatus job) →
        analysisResult (step (FetchSettled r (Resolved statusResp)) w) !! "status"
        = Some statusResp).
Proof.
  intros Hw.
  assert (∀ r resp k,
             k ∉ "status" :: "result" :: derivedKeys →
             analysisResult (step (FetchSettled r resp) w) !! k
             = analysisResult w !! k) as Hframe.
  { intros r resp k Hk. unfold derivedKeys in Hk. rewrite !not_elem_of_cons in Hk.
    destruct Hk as (K1 & K2 & K3 & K4 & K5 & K6 & K7 & _).
    rewrite step_store.
    destruct (fetchSettled_store r resp w) as [->|[(v & ->)|(res & ->)]].
    - reflexivity.
    - rewrite setAnalysisResult_lookup, lookup_singleton_ne by congruence.
      reflexivity.
    - rewrite setAnalysisResult_lookup. unfold aggregate.
      rewrite !lookup_insert_ne by congruence.
      rewrite lookup_singleton_ne by congruence. reflexivity. }
  split; [|split; [exact Hframe|split]].
  - intros t job Ht. destruct (reachable_timers_current w Hw) as [Hown Heff].
    destruct (Hown t job Ht) as [_ He]. rewrite He in Heff.
    destruct (mounted w); [congruence|discriminate].
  - intros r resp. unfold active_job. rewrite Hframe; [reflexivity|].
    unfold derivedKeys. rewrite !not_elem_of_cons.
    repeat split; try discriminate. apply not_elem_of_nil.
  - intros r job statusResp Hr. rewrite step_store. unfold handle. rewrite Hr.
    unfold pollStatusSettled. repeat case_match; wsimpl;
      rewrite setAnalysisResult_lookup; reflexivity.
Qed.

Lemma stale_response_effect_witness :
  let w := run jobB_supersedes_A initialWorld in
  (∀ t job, intervals w !! t = Some job →
            active_job (analysisResult w) = Some job)
  ∧ analysisResult (step (FetchSettled 1 (Resolved (statusDoc "running" 40))) w)
      !! "jobId" = Some (JStr "B")
  ∧ analysisResult (step (FetchSettled 1 (Resolved (statusDoc "running" 40))) w)
      !! "status" = Some (statusDoc "running" 40).
Proof.
  cbv zeta.
  destruct (stale_response_effect (run jobB_supersedes_A initialWorld))
    as (H1 & H2 & _ & H4).
  { exists jobB_supersedes_A. reflexivity. }
  split; [exact H1|]. split.
  - rewrite H2; [vm_compute; reflexivity|].
    unfold derivedKeys. rewrite !not_elem_of_cons.
    repeat split; try (intros [=]). apply not_elem_of_nil.
  - apply (H4 1 "A"). vm_compute. reflexivity.
Defined.

(** ** Terminal states *)

(** A status response that does not say ['completed'], and that the
    progress panel can display (its [status] and [progress] are not
    objects), only writes [status]: the timer and [pollRef] stay, and no
    result is fetched. *)
Lemma status_not_completed_keeps_timer w r job statusResp :
  reachable w →
  inflight w !! r = Some (AwaitStatus job) →
  says_completed statusResp = false →
  status_renders statusResp = true →
  intervals (step (FetchSettled r (Resolved statusResp)) w) = intervals w
  ∧ pollRef (step (FetchSettled r (Resolved statusResp)) w) = pollRef w
  ∧ result_requests job (trace (step (FetchSettled r (Resolved statusResp)) w))
    = result_requests job (trace w).
Proof.
  intros Hw Hr Hs _. destruct (reachable_timers_current w Hw) as [_ Heff].
  assert (active_job (setAnalysisResult {[ "status" := statusResp ]}
                        (analysisResult w))
          = active_job (analysisResult w)) as Hj.
  { unfold active_job. rewrite setAnalysisResult_lookup. reflexivity. }
  unfold step, handle. rewrite Hr. unfold pollStatusSettled.
  unfold says_completed in Hs.
  destruct (js_get statusResp "status") as [s|]; [rewrite Hs|];
    (rewrite commit_stable; [|wsimpl; rewrite Hj; exact Heff]);
    wsimpl; rewrite ?result_requests_app; simpl; auto with lia.
Qed.

(** C2 at the status ['failed']: the response is written to the store
    and nothing else happens; interval 1 stays registered in [pollRef],
    and its next tick sends one more status request for job ["A"].  On
    ['completed'] followed by the result document the interval is
    cleared. *)
Lemma failed_status_keeps_polling :
  let w := run jobA_failed initialWorld in
  analysisResult w !! "status" = Some (statusDoc "failed" 0)
  ∧ pollRef w = Some 1%positive
  ∧ intervals w = {[ 1%positive := "A" ]}
  ∧ trace (step (Tick 1) w) = trace w ++ [Sent 2 (GetStatus "A")]
  ∧ result_requests "A" (trace w) = 0
  ∧ pollRef (run jobA_completed initialWorld) = None
  ∧ intervals (run jobA_completed initialWorld) = ∅.
Proof.
  cbv zeta. do 6 (split; [vm_compute; reflexivity|]). vm_compute. reflexivity.
Qed.

(** ** Aggregation count *)

(** C6, as worded, fails: when interval 1 fires while the immediate poll
    is still waiting, both polls of job ["A"] see ['completed'] and each
    fetches the result. *)
Lemma overlapping_polls_aggregate_twice :
  let w := run overlapping_polls initialWorld in
  completed_observations "A" overlapping_polls initialWorld = 2
  ∧ result_requests "A" (trace w) = 2
  ∧ trace w
    = trace (run jobA_submitted initialWorld)
      ++ [Sent 2 (GetStatus "A"); Sent 3 (GetResult "A"); Sent 4 (GetResult "A")]
  ∧ ¬ aggregated_exactly_once.
Proof.
  cbv zeta.
  assert (result_requests "A" (trace (run overlapping_polls initialWorld)) = 2)
    as H2 by (vm_compute; reflexivity).
  assert (completed_observations "A" overlapping_polls initialWorld = 2)
    as H1 by (vm_compute; reflexivity).
  split; [exact H1|]. split; [exact H2|]. split; [vm_compute; reflexivity|].
  intros H. specialize (H overlapping_polls "A").
  rewrite H1, H2 in H. simpl in H. discriminate H.
Qed.

(** C6, amended: over any run, the number of aggregations invoked for a
    job identifier equals the number of status responses saying
    ['completed'] that were delivered to polls of that identifier; each
    such response invokes it once and nothing else does.  The code keeps
    no record per job, so two polls that both see ['completed'] both
    aggregate. *)
Theorem aggregation_per_completed_observation es job :
  result_requests job (trace (run es initialWorld))
  = completed_observations job es initialWorld.
Proof.
  rewrite run_result_requests. reflexivity.
Qed.

(** * Further properties of the code *)

(** ** Composition of merges *)

(** Two merges in a row are one merge with the later partial laid over
    the earlier one; merges that name different keys commute, as the
    status write and the aggregation do. *)
Theorem setAnalysisResult_compose (p q s : gmap string JSValue) :
  setAnalysisResult p (setAnalysisResult q s)
  = setAnalysisResult (setAnalysisResult p q) s
  ∧ (dom p ## dom q →
     setAnalysisResult p (setAnalysisResult q s)
     = setAnalysisResult q (setAnalysisResult p s))
  ∧ (∀ statusResp result,
        setAnalysisResult {[ "status" := statusResp ]}
          (setAnalysisResult (aggregate result) s)
        = setAnalysisResult (aggregate result)
            (setAnalysisResult {[ "status" := statusResp ]} s)).
Proof.
  assert (∀ a b : gmap string JSValue,
             dom a ## dom b →
             setAnalysisResult a (setAnalysisResult b s)
             = setAnalysisResult b (setAnalysisResult a s)) as Hcomm.
  { intros a b Hd. unfold setAnalysisResult. rewrite !(assoc_L (∪)).
    f_equal. apply map_union_comm. by apply map_disjoint_dom. }
  split; [|split].
  - unfold setAnalysisResult. apply (assoc_L (∪)).
  - apply Hcomm.
  - intros statusResp result. apply Hcomm.
    apply (bool_decide_unpack _). vm_compute. reflexivity.
Qed.

Lemma setAnalysisResult_compose_witness :
  setAnalysisResult clearedJob
    (setAnalysisResult {[ "triage" := triageA ]} initialAnalysisResult)
  = setAnalysisResult {[ "triage" := triageA ]}
      (setAnalysisResult clearedJob initialAnalysisResult).
Proof.
  destruct (setAnalysisResult_compose clearedJob {[ "triage" := triageA ]}
              initialAnalysisResult) as (_ & H & _).
  apply H. apply (bool_decide_unpack _). vm_compute. reflexivity.
Defined.

(** ** App.tsx: header status *)

Lemma status_is_inj status s1 s2 :
  status_is status s1 = true → status_is status s2 = true → s1 = s2.
Proof.
  unfold status_is, js_is_string. destruct (js_opt_get status "status"); try discriminate.
  rewrite !bool_decide_eq_true. congruence.
Qed.

(** The header label and the colour of its dot are two readings of the
    same [status?.status]: ['running'] shows Processing in yellow,
    ['failed'] shows Error in red, and everything else, [null] and
    ['queued'] included, shows Ready in green. *)
Theorem header_status_agrees_with_color status :
  (getSystemStatus status = "Processing" ↔ status_is status "running" = true)
  ∧ (getSystemStatus status = "Error" ↔ status_is status "failed" = true)
  ∧ (getStatusColor status = "bg-yellow-500" ↔ getSystemStatus status = "Processing")
  ∧ (getStatusColor status = "bg-red-500" ↔ getSystemStatus status = "Error")
  ∧ (getStatusColor status = "bg-green-500" ↔ getSystemStatus status = "Ready")
  ∧ getSystemStatus JNull = "Ready"
  ∧ (∀ progress, getSystemStatus (statusDoc "queued" progress) = "Ready").
Proof.
  pose proof (status_is_inj status "running" "failed") as Hrf.
  pose proof (status_is_inj status "completed" "failed") as Hcf.
  unfold getSystemStatus, getStatusColor.
  destruct (status_is status "running") eqn:Hr;
    destruct (status_is status "completed") eqn:Hc;
    destruct (status_is status "failed") eqn:Hf;
    try (specialize (Hrf eq_refl eq_refl); discriminate Hrf);
    try (specialize (Hcf eq_refl eq_refl); discriminate Hcf);
    repeat split; intros; try reflexivity; try discriminate.
Qed.

(** ** Trials page *)

Lemma groupedTrials_cons t trials :
  groupedTrials (t :: trials)
  = {| high := (if decide (match_score t = "high") then [t] else [])
               ++ high (groupedTrials trials);
       medium := (if decide (match_score t = "medium") then [t] else [])
                 ++ medium (groupedTrials trials);
       low := (if decide (match_score t = "low") then [t] else [])
              ++ low (groupedTrials trials) |}.
Proof.
  unfold groupedTrials. cbn [high medium low]. rewrite !filter_cons.
  repeat case_decide; reflexivity.
Qed.

(** The three groups of the Trials page split the list by score: a trial
    is in a group exactly when it has that score; when every score is one
    of the three, the groups together are a rearrangement of the list, so
    each trial is shown once; a trial with any other score is counted in
    the total but shown in no group. *)
Theorem groupedTrials_partition trials :
  (∀ t, t ∈ high (groupedTrials trials) ↔ t ∈ trials ∧ match_score t = "high")
  ∧ (∀ t, t ∈ medium (groupedTrials trials)
          ↔ t ∈ trials ∧ match_score t = "medium")
  ∧ (∀ t, t ∈ low (groupedTrials trials) ↔ t ∈ trials ∧ match_score t = "low")
  ∧ length (high (groupedTrials trials)) + length (medium (groupedTrials trials))
    + length (low (groupedTrials trials))
    + length (filter (λ t, match_score t ∉ ["high"; "medium"; "low"]) trials)
    = totalTrials trials
  ∧ (Forall (λ t, match_score t ∈ ["high"; "medium"; "low"]) trials →
     high (groupedTrials trials) ++ medium (groupedTrials trials)
     ++ low (groupedTrials trials) ≡ₚ trials).
Proof.
  split; [|split; [|split; [|split]]].
  - intros t. unfold groupedTrials. cbn [high]. rewrite list_elem_of_filter. tauto.
  - intros t. unfold groupedTrials. cbn [medium]. rewrite list_elem_of_filter. tauto.
  - intros t. unfold groupedTrials. cbn [low]. rewrite list_elem_of_filter. tauto.
  - unfold totalTrials. induction trials as [|t trials IH]; [reflexivity|].
    rewrite groupedTrials_cons. cbn [high medium low]. rewrite filter_cons.
    rewrite !length_app. cbn [length]. rewrite <- IH.
    destruct (decide (match_score t = "high")) as [E|N1].
    { rewrite E. repeat (case_decide; try discriminate).
      - exfalso. set_solver.
      - cbn [length]. lia. }
    destruct (decide (match_score t = "medium")) as [E|N2].
    { rewrite E. repeat (case_decide; try discriminate).
      - exfalso. set_solver.
      - cbn [length]. lia. }
    destruct (decide (match_score t = "low")) as [E|N3].
    { rewrite E. repeat (case_decide; try discriminate).
      - exfalso. set_solver.
      - cbn [length]. lia. }
    case_decide as Hin.
    + cbn [length]. lia.
    + exfalso. rewrite !elem_of_cons, elem_of_nil in Hin. tauto.
  - induction 1 as [|t trials Ht _ IH]; [reflexivity|].
    rewrite groupedTrials_cons. cbn [high medium low].
    rewrite !elem_of_cons in Ht.
    destruct Ht as [E|[E|[E|E]]]; [| | |by apply elem_of_nil in E];
      rewrite E;
      repeat first [ rewrite decide_True by reflexivity
                   | rewrite decide_False by (intros [=]) ];
      cbn [app].
    + by constructor.
    + rewrite <- Permutation_middle. by constructor.
    + rewrite (assoc_L (++)), <- Permutation_middle, <- (assoc_L (++)).
      by constructor.
Qed.

Lemma groupedTrials_partition_witness :
  let demo score := {| nct_id := "NCT05123456"; title := "t"; summary := "s";
                       status := "Recruiting"; locations := ["Mayo Clinic"];
                       url := "u"; match_reason := "r"; match_score := score;
                       phase := "PHASE2"; citations := None |} in
  let trials := [demo "low"; demo "high"; demo "medium"; demo "high"] in
  high (groupedTrials trials) ++ medium (groupedTrials trials)
  ++ low (groupedTrials trials) ≡ₚ trials.
Proof.
  cbv zeta.
  match goal with |- _ ≡ₚ ?l =>
    destruct (groupedTrials_partition l) as (_ & _ & _ & _ & H) end.
  apply H. repeat constructor.
Defined.

(** Saving is a toggle on the set of saved identifiers: it flips the
    membership of the clicked identifier and of no other, two clicks
    restore the set, the size moves by exactly one, and the toast says
    which way it went. *)
Theorem handleSaveTrial_toggle (trialId : string) (savedTrials : gset string) :
  (∀ x, x ∈ (handleSaveTrial trialId savedTrials).1
        ↔ if decide (x = trialId) then x ∉ savedTrials else x ∈ savedTrials)
  ∧ (handleSaveTrial trialId (handleSaveTrial trialId savedTrials).1).1
    = savedTrials
  ∧ size (handleSaveTrial trialId savedTrials).1
    = (if decide (trialId ∈ savedTrials)
       then size savedTrials - 1 else S (size savedTrials))
  ∧ (message (handleSaveTrial trialId savedTrials).2 = "Trial saved successfully!"
     ↔ trialId ∉ savedTrials).
Proof.
  unfold handleSaveTrial. split; [|split; [|split]].
  - intros x. destruct (decide (trialId ∈ savedTrials)); cbn [fst];
      destruct (decide (x = trialId)); set_solver.
  - destruct (decide (trialId ∈ savedTrials)) as [Hin|Hout]; cbn [fst].
    + rewrite decide_False by set_solver. cbn [fst].
      apply set_eq. intros x. destruct (decide (x = trialId)); set_solver.
    + rewrite decide_True by set_solver. cbn [fst]. set_solver.
  - destruct (decide (trialId ∈ savedTrials)) as [Hin|Hout]; cbn [fst].
    + rewrite size_difference by set_solver. rewrite size_singleton. reflexivity.
    + rewrite size_union by set_solver. rewrite size_singleton. reflexivity.
  - destruct (decide (trialId ∈ savedTrials)) as [Hin|Hout]; cbn [snd message].
    + split; [intros H; discriminate H | intros H; contradiction].
    + split; [intros _; exact Hout | reflexivity].
Qed.

Lemma trialsRequestData_moca result pd :
  js_get (trialsRequestData result pd) "moca_score"
  = Some (js_or (js_of_num (moca pd)) (JNum 24)).
Proof. reflexivity. Qed.

Lemma trialsRequestData_age result pd :
  js_get (trialsRequestData result pd) "age"
  = Some (js_or (js_of_num (age pd)) (JNum 72)).
Proof. reflexivity. Qed.

(** The trial-matching request falls back with [||], so every falsy
    value is replaced, not only a missing one.  A MoCA score the user
    entered is sent as it is unless it is [0] (or [NaN]), which is sent as
    24 although the submission guard accepts [0] and the submission
    itself sends [0]; a missing score is 24 in both requests; a missing
    age is 72 here and 70 in the submission; without a result the risk
    tier is ['MODERATE'] and the imaging findings are [{}]. *)
Theorem trialsRequestData_fallbacks result pd :
  (∀ m, moca pd = Num m → float_falsy m = false →
        js_get (trialsRequestData result pd) "moca_score" = Some (JNum m)
        ∧ mocaVal pd = m)
  ∧ (∀ m, moca pd = Num m → float_falsy m = true →
          js_get (trialsRequestData result pd) "moca_score" = Some (JNum 24)
          ∧ mocaVal pd = m)
  ∧ (moca pd = Empty →
     js_get (trialsRequestData result pd) "moca_score" = Some (JNum 24)
     ∧ mocaVal pd = 24%float)
  ∧ (age pd = Empty →
     js_get (trialsRequestData result pd) "age" = Some (JNum 72)
     ∧ ageVal pd = 70%float)
  ∧ (js_truthy result = false →
     js_get (trialsRequestData result pd) "risk_tier" = Some (JStr "MODERATE")
     ∧ js_get (trialsRequestData result pd) "imaging_findings" = Some (JObj ∅))
  ∧ (∀ f, files pd = [f] → moca pd = Num 0 → age pd = Empty →
          canSubmit pd = true
          ∧ js_get (trialsRequestData result pd) "moca_score" = Some (JNum 24)
          ∧ mocaVal pd = 0%float).
Proof.
  split; [|split; [|split; [|split; [|split]]]].
  - intros m Hm Hf. rewrite trialsRequestData_moca. unfold mocaVal, js_or.
    rewrite Hm. cbn [js_of_num js_truthy]. rewrite Hf. auto.
  - intros m Hm Hf. rewrite trialsRequestData_moca. unfold mocaVal, js_or.
    rewrite Hm. cbn [js_of_num js_truthy]. rewrite Hf. auto.
  - intros Hm. rewrite trialsRequestData_moca. unfold mocaVal. rewrite Hm. auto.
  - intros Ha. rewrite trialsRequestData_age. unfold ageVal. rewrite Ha. auto.
  - intros Hr.
    assert (∀ k1 k2, js_opt_get (js_opt_get result k1) k2 = JUndefined) as Hu.
    { intros k1 k2. destruct result as [| |b|n|s|l|o]; try reflexivity;
        discriminate Hr. }
    assert (js_get (trialsRequestData result pd) "risk_tier"
            = Some (js_or (js_opt_get (js_opt_get result "triage") "risk_tier")
                      (JStr "MODERATE"))) as -> by reflexivity.
    assert (js_get (trialsRequestData result pd) "imaging_findings"
            = Some (js_or (js_opt_get (js_opt_get result "note") "imaging_findings")
                      (JObj ∅))) as -> by reflexivity.
    rewrite !Hu. auto.
  - intros f Hf Hm Ha. rewrite trialsRequestData_moca. unfold canSubmit, mocaVal.
    rewrite Hf, Hm, Ha. auto.
Qed.

Lemma trialsRequestData_fallbacks_witness :
  let pd := {| age := Empty; moca := Num 0; sex := "F"; files := [scanFile] |} in
  canSubmit pd = true
  ∧ js_get (trialsRequestData JNull pd) "moca_score" = Some (JNum 24)
  ∧ mocaVal pd = 0%float.
Proof.
  cbv zeta.
  match goal with |- canSubmit ?pd = true ∧ _ =>
    destruct (trialsRequestData_fallbacks JNull pd) as (_ & _ & _ & _ & _ & H) end.
  apply (H scanFile); reflexivity.
Defined.

(** ** Dashboard.tsx: the selected files *)

Lemma removeIndex_keep_all (g : nat → File → list File) (fs : list File) :
  (∀ i f, g i f = [f]) → imap g fs ≫= id = fs.
Proof.
  revert g. induction fs as [|f fs IH]; intros g Hg; [reflexivity|].
  rewrite imap_cons, bind_cons, Hg. cbn [id app]. f_equal.
  apply IH. intros i f'. apply Hg.
Qed.

Lemma removeIndex_eq_delete idx fs : removeIndex idx fs = delete idx fs.
Proof.
  unfold removeIndex. revert idx. induction fs as [|f fs IH]; intros idx;
    [reflexivity|].
  rewrite imap_cons, bind_cons. destruct idx as [|idx].
  - rewrite decide_True by reflexivity. cbn [id app delete list_delete].
    apply removeIndex_keep_all. intros i f'. cbn [compose].
    rewrite decide_False by lia. reflexivity.
  - rewrite decide_False by lia. cbn [id app delete list_delete]. f_equal.
    rewrite <- IH. f_equal. apply imap_ext. intros i f' _. cbn [compose].
    destruct (decide (i = idx)); [rewrite decide_True by lia
                                 |rewrite decide_False by lia]; reflexivity.
Qed.

(** [removeFile] takes out exactly the file at the given index and keeps
    the others in order; an index past the end changes nothing. *)
Theorem removeIndex_bounds idx (fs : list File) :
  (∀ i, removeIndex idx fs !! i = fs !! (if decide (i < idx) then i else S i))
  ∧ (idx < length fs → length (removeIndex idx fs) = length fs - 1)
  ∧ (length fs ≤ idx → removeIndex idx fs = fs).
Proof.
  rewrite removeIndex_eq_delete. split; [|split].
  - intros i. apply list_lookup_delete.
  - intros H. apply length_delete, lookup_lt_is_Some, H.
  - intros H. rewrite delete_take_drop.
    rewrite take_ge by exact H. rewrite drop_ge by lia. apply app_nil_r.
Qed.

Lemma removeIndex_bounds_witness :
  length (removeIndex 1 [MkFile "a.nii"; MkFile "b.nii"; MkFile "c.nii"]) = 2
  ∧ removeIndex 3 [MkFile "a.nii"; MkFile "b.nii"; MkFile "c.nii"]
    = [MkFile "a.nii"; MkFile "b.nii"; MkFile "c.nii"].
Proof.
  split.
  - apply (removeIndex_bounds 1 [MkFile "a.nii"; MkFile "b.nii"; MkFile "c.nii"]).
    simpl. lia.
  - apply (removeIndex_bounds 3 [MkFile "a.nii"; MkFile "b.nii"; MkFile "c.nii"]).
    simpl. lia.
Defined.

Lemma removeIndex_length_le idx (fs : list File) :
  length (removeIndex idx fs) ≤ length fs.
Proof.
  rewrite removeIndex_eq_delete. destruct (decide (idx < length fs)) as [H|H].
  - rewrite length_delete by (apply lookup_lt_is_Some, H). lia.
  - rewrite delete_take_drop, take_ge, drop_ge, app_nil_r by lia. lia.
Qed.

Lemma handle_files e w :
  length (files (patientData w)) ≤ 1 →
  length (files (patientData (handle e w))) ≤ 1.
Proof.
  intros H.
  destruct e; open_handlers; repeat case_match; subst; wsimpl;
    rewrite ?(proj1 (clearPollRef_fields _)); wsimpl;
    unfold setPatientData;
    cbn [files default from_option id p_files onlyMoca onlyAge onlySex length];
    try lia; try exact H.
  all: match goal with
       | |- context [removeIndex ?i ?l] =>
           pose proof (removeIndex_length_le i l); lia
       end.
Qed.

(** Whatever the user drops, picks or removes, and whatever the pipeline
    does, the intake never holds more than one file. *)
Theorem at_most_one_file w :
  reachable w → length (files (patientData w)) ≤ 1.
Proof.
  revert w. apply reachable_invariant.
  - cbn. lia.
  - intros e w _ H. unfold step. rewrite commit_patientData.
    apply handle_files, H.
Qed.

Lemma at_most_one_file_witness :
  length (files (patientData
                   (run [SelectFiles [MkFile "a.nii"; MkFile "b.nii"];
                         SelectFiles [MkFile "c.nii"]] initialWorld))) ≤ 1.
Proof.
  apply at_most_one_file. eexists. reflexivity.
Defined.

(** ** Shape of the store *)

Lemma merge_keeps_dom (p s : gmap string JSValue) :
  dom p ⊆ dom s → dom (setAnalysisResult p s) = dom s.
Proof.
  intros H. unfold setAnalysisResult. rewrite dom_union_L.
  apply subseteq_union_1_L, H.
Qed.

Lemma partial_keys_known :
  dom clearedJob ⊆ dom initialAnalysisResult
  ∧ (∀ v, dom ({[ "jobId" := v ]} : gmap string JSValue) ⊆ dom initialAnalysisResult)
  ∧ (∀ v, dom ({[ "status" := v ]} : gmap string JSValue) ⊆ dom initialAnalysisResult)
  ∧ (∀ result, dom (aggregate result) ⊆ dom initialAnalysisResult).
Proof.
  repeat split; intros; apply (bool_decide_unpack _); vm_compute; reflexivity.
Qed.

(** The merges never add a key to the store nor drop one: every
    reachable store has exactly the eight fields of
    [initialAnalysisResult]. *)
Theorem store_shape w :
  reachable w →
  dom (analysisResult w) = dom initialAnalysisResult.
Proof.
  revert w. apply reachable_invariant.
  - reflexivity.
  - intros e w _ Hd. rewrite step_store.
    destruct partial_keys_known as (K1 & K2 & K3 & K4).
    destruct (handle_store e w)
      as [->|[->|[(r & id & _ & ->)|[(r & v & job & _ & _ & ->)
                                    |(r & v & job & res & _ & _ & _ & ->)]]]].
    + exact Hd.
    + rewrite merge_keeps_dom by (rewrite Hd; exact K1). exact Hd.
    + rewrite merge_keeps_dom by (rewrite Hd; apply K2). exact Hd.
    + rewrite merge_keeps_dom by (rewrite Hd; apply K3). exact Hd.
    + rewrite merge_keeps_dom by (rewrite Hd; apply K4). exact Hd.
Qed.

Lemma store_shape_witness :
  dom (analysisResult (run jobA_completed initialWorld))
  = dom initialAnalysisResult.
Proof.
  apply store_shape. exists jobA_completed. reflexivity.
Defined.

(** ** Who writes what *)

(** An intake edit changes the patient data and nothing else: the
    analysis store, the timer, the pending requests and the trace are as
    before, so typing into the form never disturbs a running job. *)
Theorem intake_edit_frame e w :
  reachable w →
  is_intake_edit e = true →
  analysisResult (step e w) = analysisResult w
  ∧ intervals (step e w) = intervals w
  ∧ pollRef (step e w) = pollRef w
  ∧ inflight (step e w) = inflight w
  ∧ trace (step e w) = trace w.
Proof.
  intros Hw He. destruct (reachable_timers_current w Hw) as [_ Heff].
  unfold step.
  destruct e; try discriminate He; unfold handle, onSelectFiles, removeFile;
    destruct (mounted w) eqn:Hm;
    repeat case_match; subst;
    (rewrite commit_stable; [|wsimpl; rewrite ?Hm; exact Heff]);
    wsimpl; auto.
Qed.

Lemma intake_edit_frame_witness :
  let w := run jobA_submitted initialWorld in
  analysisResult (step (ChangeMoca (Num 12)) w) = analysisResult w
  ∧ intervals (step (ChangeMoca (Num 12)) w) = intervals w
  ∧ pollRef (step (ChangeMoca (Num 12)) w) = pollRef w
  ∧ inflight (step (ChangeMoca (Num 12)) w) = inflight w
  ∧ trace (step (ChangeMoca (Num 12)) w) = trace w.
Proof.
  apply intake_edit_frame; [exists jobA_submitted; reflexivity | reflexivity].
Defined.

(** Only the intake handlers and the two demo buttons write patient data:
    submissions, timer ticks, responses and the unmount leave it as it
    is. *)
Theorem pipeline_keeps_patientData e w :
  is_intake_edit e = false →
  is_demo_click e = false →
  patientData (step e w) = patientData w.
Proof.
  intros H1 H2. unfold step. rewrite commit_patientData.
  destruct e; try discriminate H1; try discriminate H2;
    open_handlers; repeat case_match; subst; wsimpl;
    rewrite ?(proj1 (clearPollRef_fields _)); wsimpl; reflexivity.
Qed.

Lemma pipeline_keeps_patientData_witness :
  patientData (step ClickSubmit (step (SelectFiles [scanFile]) initialWorld))
  = patientData (step (SelectFiles [scanFile]) initialWorld).
Proof.
  apply pipeline_keeps_patientData; reflexivity.
Defined.

(** ** The demo buttons *)

(** A demo button needs no file and no valid intake: from any state it
    overwrites the patient data with its fixed values and an empty file
    list, resets the job fields and sends its one request; afterwards the
    submission guard is closed until a file is chosen. *)
Theorem demo_click_bypasses_guard w :
  mounted w = true →
  (patientData (step ClickDemoHealthy w)
   = {| age := Num 72; moca := Num 24; sex := "M"; files := [] |}
   ∧ analysisResult (step ClickDemoHealthy w)
     = setAnalysisResult clearedJob (analysisResult w)
   ∧ trace (step ClickDemoHealthy w)
     = trace w ++ [Sent (nextRequest w) PostDemoSubmit]
   ∧ canSubmit (patientData (step ClickDemoHealthy w)) = false)
  ∧ (patientData (step ClickDemoPathology w)
     = {| age := Num 78; moca := Num 19; sex := "F"; files := [] |}
     ∧ analysisResult (step ClickDemoPathology w)
       = setAnalysisResult clearedJob (analysisResult w)
     ∧ trace (step ClickDemoPathology w)
       = trace w ++ [Sent (nextRequest w) PostDemoPathology]
     ∧ canSubmit (patientData (step ClickDemoPathology w)) = false).
Proof.
  intros Hm. unfold step.
  rewrite !commit_patientData, !commit_analysisResult.
  unfold handle, useDemoCase, useDemoPathology. rewrite Hm.
  split.
  - match goal with |- context [trace (commit ?x)] => set (w1 := x) end.
    destruct (commit_no_job w1) as (_ & _ & ->).
    { subst w1. wsimpl. apply active_job_cleared. }
    subst w1. wsimpl. auto.
  - match goal with |- context [trace (commit ?x)] => set (w1 := x) end.
    destruct (commit_no_job w1) as (_ & _ & ->).
    { subst w1. wsimpl. apply active_job_cleared. }
    subst w1. wsimpl. auto.
Qed.

Lemma demo_click_bypasses_guard_witness :
  canSubmit (patientData initialWorld) = false
  ∧ trace (step ClickDemoHealthy initialWorld) = [Sent 0 PostDemoSubmit]
  ∧ canSubmit (patientData (step ClickDemoHealthy initialWorld)) = false.
Proof.
  destruct (demo_click_bypasses_guard initialWorld) as [(_ & _ & H1 & H2) _].
  { reflexivity. }
  split; [reflexivity|]. split; [exact H1|exact H2].
Defined.

(** ** The poll timer *)

(** At most one interval is ever live, and when one is, it is the one
    held in [pollRef], it polls the job the store names, and the
    Dashboard is on screen. *)
Theorem at_most_one_timer w :
  reachable w →
  intervals w = ∅
  ∨ ∃ t job, intervals w = {[ t := job ]}
             ∧ pollRef w = Some t
             ∧ active_job (analysisResult w) = Some job
             ∧ mounted w = true.
Proof.
  intros Hw. destruct (reachable_timers_current w Hw) as [Hown Heff].
  destruct (pollRef w) as [t|] eqn:Hp.
  - destruct (intervals w !! t) as [job|] eqn:Ht.
    + right. exists t, job. destruct (Hown t job Ht) as [_ He].
      split; [|split; [reflexivity|]].
      * apply map_eq. intros t'. destruct (decide (t = t')) as [<-|Hne].
        -- rewrite lookup_singleton_eq. exact Ht.
        -- rewrite lookup_singleton_ne by exact Hne.
           destruct (intervals w !! t') eqn:Ht'; [|reflexivity].
           destruct (Hown t' _ Ht') as [Hp' _]. congruence.
      * rewrite He in Heff. destruct (mounted w); [auto|discriminate Heff].
    + left. apply map_eq. intros t'. rewrite lookup_empty.
      destruct (intervals w !! t') eqn:Ht'; [|reflexivity].
      destruct (Hown t' _ Ht') as [Hp' _]. congruence.
  - left. apply map_eq. intros t'. rewrite lookup_empty.
    destruct (intervals w !! t') eqn:Ht'; [|reflexivity].
    destruct (Hown t' _ Ht') as [Hp' _]. congruence.
Qed.

Lemma at_most_one_timer_witness :
  intervals (run jobB_supersedes_A initialWorld) = ∅
  ∨ ∃ t job, intervals (run jobB_supersedes_A initialWorld) = {[ t := job ]}
             ∧ pollRef (run jobB_supersedes_A initialWorld) = Some t
             ∧ active_job (analysisResult (run jobB_supersedes_A initialWorld))
               = Some job
             ∧ mounted (run jobB_supersedes_A initialWorld) = true.
Proof.
  apply at_most_one_timer. exists jobB_supersedes_A. reflexivity.
Defined.

Lemma tick_without_timer w t :
  reachable w → intervals w !! t = None → step (Tick t) w = w.
Proof.
  intros Hw Ht. unfold step, handle. rewrite Ht.
  apply reachable_commit_stable, Hw.
Qed.

(** A tick of the live timer sends exactly one status request, for the
    job the store names, and changes nothing else; a tick of a timer that
    was cleared does nothing. *)
Theorem tick_polls_current_job w t :
  reachable w →
  (∀ job, intervals w !! t = Some job →
          step (Tick t) w = fetch (GetStatus job) (AwaitStatus job) w
          ∧ active_job (analysisResult w) = Some job)
  ∧ (intervals w !! t = None → step (Tick t) w = w).
Proof.
  intros Hw. destruct (reachable_timers_current w Hw) as [Hown Heff].
  unfold step, handle. split.
  - intros job Ht. rewrite Ht. unfold poll.
    split; [apply commit_stable; wsimpl; exact Heff|].
    destruct (Hown t job Ht) as [_ He]. rewrite He in Heff.
    destruct (mounted w); [auto|discriminate Heff].
  - intros Ht. rewrite Ht. apply commit_stable, Heff.
Qed.

Lemma tick_polls_current_job_witness :
  step (Tick 1) (run jobA_submitted initialWorld)
  = fetch (GetStatus "A") (AwaitStatus "A") (run jobA_submitted initialWorld)
  ∧ step (Tick 7) (run jobA_submitted initialWorld)
    = run jobA_submitted initialWorld.
Proof.
  destruct (tick_polls_current_job (run jobA_submitted initialWorld) 1)
    as [H1 _]; [exists jobA_submitted; reflexivity|].
  destruct (tick_polls_current_job (run jobA_submitted initialWorld) 7)
    as [_ H2]; [exists jobA_submitted; reflexivity|].
  split; [apply (H1 "A"); reflexivity | apply H2; reflexivity].
Defined.

Lemma active_job_written s job_id :
  active_job (setAnalysisResult {[ "jobId" := JStr job_id ]} s)
  = if decide (job_id = "") then None else Some job_id.
Proof. unfold active_job. rewrite setAnalysisResult_lookup. reflexivity. Qed.

(** When a create-job response brings a new, non-empty job identifier
    while the Dashboard is on screen, polling starts at once: the
    identifier is written to [jobId], one status request for it is sent
    before any interval elapses, and a single interval for it is
    registered in [pollRef], any earlier one being cleared. *)
Theorem polling_starts_on_job_id w r who job_id :
  reachable w →
  mounted w = true →
  inflight w !! r = Some (AwaitSubmit who) →
  job_id ≠ "" →
  active_job (analysisResult w) ≠ Some job_id →
  let w' := step (SubmitSettled r (SubmitOk job_id)) w in
  analysisResult w' = <["jobId" := JStr job_id]> (analysisResult w)
  ∧ trace w' = trace w ++ [Sent (nextRequest w) (GetStatus job_id)]
  ∧ inflight w'
    = <[nextRequest w := AwaitStatus job_id]> (delete r (inflight w))
  ∧ intervals w' = {[ nextInterval w := job_id ]}
  ∧ pollRef w' = Some (nextInterval w).
Proof.
  intros Hw Hm Hr Hne Hnew. cbv zeta.
  destruct (reachable_timers_current w Hw) as [Hown Heff]. rewrite Hm in Heff.
  pose proof (clearPollRef_intervals w Hown) as Hclr.
  pose proof (no_effect_no_timers w Hown) as Hnone.
  split.
  { rewrite step_store. unfold handle. rewrite Hr. unfold submitSettled. wsimpl.
    unfold setAnalysisResult. symmetry. apply insert_union_singleton_l. }
  unfold step, handle. rewrite Hr. unfold submitSettled, commit. wsimpl.
  rewrite Hm, active_job_written.
  destruct (decide (job_id = "")) as [?|_]; [contradiction|].
  rewrite decide_False by congruence.
  destruct (effectJob w) as [old|] eqn:He.
  - unfold clearPollRef in *. wsimpl.
    destruct (pollRef w) as [t|]; wsimpl; rewrite Hclr; auto.
  - wsimpl. rewrite (Hnone eq_refl). auto.
Qed.

Lemma polling_starts_on_job_id_witness :
  let w := run [SelectFiles [scanFile]; ClickSubmit] initialWorld in
  let w' := step (SubmitSettled 0 (SubmitOk "A")) w in
  analysisResult w' = <["jobId" := JStr "A"]> (analysisResult w)
  ∧ trace w' = trace w ++ [Sent (nextRequest w) (GetStatus "A")]
  ∧ inflight w' = <[nextRequest w := AwaitStatus "A"]> (delete 0 (inflight w))
  ∧ intervals w' = {[ nextInterval w := "A" ]}
  ∧ pollRef w' = Some (nextInterval w).
Proof.
  apply (polling_starts_on_job_id
           (run [SelectFiles [scanFile]; ClickSubmit] initialWorld)
           0 StartSubmit "A").
  - eexists. reflexivity.
  - reflexivity.
  - reflexivity.
  - intros [=].
  - vm_compute. intros [=].
Defined.

(** An empty job identifier is falsy for the effect: it is written to
    [jobId], but no status request is sent and no timer is left
    running. *)
Theorem empty_job_id_starts_nothing w r who :
  reachable w →
  inflight w !! r = Some (AwaitSubmit who) →
  let w' := step (SubmitSettled r (SubmitOk "")) w in
  analysisResult w' !! "jobId" = Some (JStr "")
  ∧ active_job (analysisResult w') = None
  ∧ trace w' = trace w
  ∧ intervals w' = ∅.
Proof.
  intros Hw Hr. cbv zeta.
  destruct (reachable_timers_current w Hw) as [Hown Heff].
  pose proof (clearPollRef_intervals w Hown) as Hclr.
  pose proof (no_effect_no_timers w Hown) as Hnone.
  unfold step, handle. rewrite Hr. unfold submitSettled.
  rewrite commit_analysisResult. wsimpl.
  split; [rewrite setAnalysisResult_lookup; reflexivity|].
  assert (active_job (setAnalysisResult {[ "jobId" := JStr "" ]}
                        (analysisResult w)) = None) as Hnj
    by (rewrite active_job_written; reflexivity).
  split; [exact Hnj|].
  unfold commit. wsimpl. rewrite Hnj.
  destruct (mounted w) eqn:Hm.
  - destruct (effectJob w) as [old|] eqn:He.
    + rewrite decide_False by (intros [=]). wsimpl.
      unfold clearPollRef in *. wsimpl.
      destruct (pollRef w) as [t|]; wsimpl; auto.
    + rewrite decide_True by reflexivity. wsimpl. auto.
  - wsimpl. auto.
Qed.

Lemma empty_job_id_starts_nothing_witness :
  let w := run [SelectFiles [scanFile]; ClickSubmit] initialWorld in
  let w' := step (SubmitSettled 0 (SubmitOk "")) w in
  analysisResult w' !! "jobId" = Some (JStr "")
  ∧ active_job (analysisResult w') = None
  ∧ trace w' = trace w
  ∧ intervals w' = ∅.
Proof.
  apply (empty_job_id_starts_nothing
           (run [SelectFiles [scanFile]; ClickSubmit] initialWorld) 0 StartSubmit).
  - eexists. reflexivity.
  - reflexivity.
Defined.

(** ** Failed and malformed poll responses *)

Lemma status_not_completed_keeps_timer_witness :
  let w := run jobA_submitted initialWorld in
  let w' := step (FetchSettled 1 (Resolved (statusDoc "running" 40))) w in
  intervals w' = intervals w
  ∧ pollRef w' = pollRef w
  ∧ result_requests "A" (trace w') = result_requests "A" (trace w).
Proof.
  apply (status_not_completed_keeps_timer (run jobA_submitted initialWorld)
           1 "A" (statusDoc "running" 40)).
  - exists jobA_submitted. reflexivity.
  - reflexivity.
  - reflexivity.
  - reflexivity.
Defined.

(** A status or result request that is rejected (network failure, or a
    body that is not JSON) is logged and otherwise ignored: the store,
    the timer and [pollRef] are as before and nothing is sent, so the
    next tick polls again; after a rejected result request the interval
    is therefore still running. *)
Theorem rejected_poll_is_tolerated w r k :
  reachable w →
  inflight w !! r = Some k →
  continuation_job k ≠ None →
  let w' := step (FetchSettled r Rejected) w in
  analysisResult w' = analysisResult w
  ∧ intervals w' = intervals w
  ∧ pollRef w' = pollRef w
  ∧ trace w' = trace w ++ [ConsoleError "Polling failed:"]
  ∧ inflight w' = delete r (inflight w).
Proof.
  intros Hw Hr Hk. cbv zeta.
  destruct (reachable_timers_current w Hw) as [_ Heff].
  unfold step, handle. rewrite Hr.
  destruct k as [who|job|job]; [contradiction Hk; reflexivity| |];
    cbn [pollStatusSettled pollResultSettled];
    (rewrite commit_stable; [|wsimpl; exact Heff]); wsimpl; auto.
Qed.

Lemma rejected_poll_is_tolerated_witness :
  let w := run (jobA_submitted
                ++ [FetchSettled 1 (Resolved (statusDoc "completed" 100))])
             initialWorld in
  let w' := step (FetchSettled 2 Rejected) w in
  analysisResult w' = analysisResult w
  ∧ intervals w' = intervals w
  ∧ pollRef w' = pollRef w
  ∧ trace w' = trace w ++ [ConsoleError "Polling failed:"]
  ∧ inflight w' = delete 2 (inflight w).
Proof.
  apply (rejected_poll_is_tolerated
           (run (jobA_submitted
                 ++ [FetchSettled 1 (Resolved (statusDoc "completed" 100))])
              initialWorld) 2 (AwaitResult "A")).
  - eexists. reflexivity.
  - reflexivity.
  - intros [=].
Defined.

Lemma active_job_aggregate result s :
  active_job (setAnalysisResult (aggregate result) s) = active_job s.
Proof. unfold active_job. rewrite setAnalysisResult_lookup. reflexivity. Qed.

(** The step that merges a result document. *)
Lemma result_settled_step w r job resultResp result :
  reachable w →
  inflight w !! r = Some (AwaitResult job) →
  js_get resultResp "result" = Some result →
  step (FetchSettled r (Resolved resultResp)) w
  = clearPollRef
      (with_analysisResult (setAnalysisResult (aggregate result)) (settle r w))
  ∧ intervals (step (FetchSettled r (Resolved resultResp)) w) = ∅
  ∧ analysisResult (step (FetchSettled r (Resolved resultResp)) w)
    = setAnalysisResult (aggregate result) (analysisResult w).
Proof.
  intros Hw Hr Hres.
  destruct (reachable_timers_current w Hw) as [Hown Heff].
  assert (step (FetchSettled r (Resolved resultResp)) w
          = clearPollRef
              (with_analysisResult (setAnalysisResult (aggregate result))
                 (settle r w))) as Hstep.
  { unfold step, handle. rewrite Hr. unfold pollResultSettled. rewrite Hres.
    apply commit_stable.
    destruct (clearPollRef_fields
                (with_analysisResult (setAnalysisResult (aggregate result))
                   (settle r w))) as (_ & Ha & Hm & He & _).
    rewrite Ha, Hm, He. wsimpl. rewrite active_job_aggregate. exact Heff. }
  split; [exact Hstep|]. rewrite Hstep. split.
  - apply clearPollRef_intervals. wsimpl. exact Hown.
  - rewrite clearPollRef_analysisResult. reflexivity.
Qed.

(** As long as the Dashboard has never been unmounted, a merged result
    document leaves no timer: [pollRef] is [null], no interval is live,
    and a tick that was already due does nothing.  This holds whichever
    job the response was for. *)
Theorem aggregation_stops_polling es r job resultResp result :
  Unmount ∉ es →
  inflight (run es initialWorld) !! r = Some (AwaitResult job) →
  js_get resultResp "result" = Some result →
  let w' := step (FetchSettled r (Resolved resultResp)) (run es initialWorld) in
  intervals w' = ∅
  ∧ pollRef w' = None
  ∧ (∀ t, step (Tick t) w' = w').
Proof.
  intros _ Hr Hres. cbv zeta.
  destruct (result_settled_step (run es initialWorld) r job resultResp result
              (reachable_run es) Hr Hres) as (Hstep & Hi & _).
  split; [exact Hi|]. split.
  - rewrite Hstep. apply clearPollRef_fields.
  - intros t. apply tick_without_timer;
      [apply reachable_step, reachable_run|].
    rewrite Hi. apply lookup_empty.
Qed.

Lemma aggregation_stops_polling_witness :
  let es := jobA_submitted
            ++ [FetchSettled 1 (Resolved (statusDoc "completed" 100))] in
  let w' := step (FetchSettled 2 (Resolved resultRespA)) (run es initialWorld) in
  intervals w' = ∅ ∧ pollRef w' = None ∧ (∀ t, step (Tick t) w' = w').
Proof.
  apply (aggregation_stops_polling
           (jobA_submitted
            ++ [FetchSettled 1 (Resolved (statusDoc "completed" 100))])
           2 "A" resultRespA resultA).
  - intros H. cbn in H. rewrite !elem_of_cons, elem_of_nil in H.
    destruct H as [H|[H|[H|[H|H]]]]; [discriminate H..|exact H].
  - reflexivity.
  - reflexivity.
Defined.

(** A result response whose body is [null] is logged and writes nothing,
    the timer keeps running; a body that is an object without a [result]
    field is merged all the same: [result] and the five derived fields
    become [undefined]. *)
Theorem malformed_result_response w r job :
  reachable w →
  inflight w !! r = Some (AwaitResult job) →
  (analysisResult (step (FetchSettled r (Resolved JNull)) w) = analysisResult w
   ∧ intervals (step (FetchSettled r (Resolved JNull)) w) = intervals w
   ∧ trace (step (FetchSettled r (Resolved JNull)) w)
     = trace w ++ [ConsoleError "Polling failed:"])
  ∧ (∀ body : gmap string JSValue,
        body !! "result" = None →
        Forall (λ k, analysisResult (step (FetchSettled r (Resolved (JObj body))) w)
                       !! k = Some JUndefined)
               ("result" :: derivedKeys)).
Proof.
  intros Hw Hr. destruct (reachable_timers_current w Hw) as [_ Heff]. split.
  - unfold step, handle. rewrite Hr. cbn [pollResultSettled js_get].
    rewrite commit_stable by (wsimpl; exact Heff). wsimpl. auto.
  - intros body Hb.
    assert (js_get (JObj body) "result" = Some JUndefined) as Hg.
    { cbn [js_get]. rewrite Hb. reflexivity. }
    destruct (result_settled_step w r job (JObj body) JUndefined Hw Hr Hg)
      as (_ & _ & Hs).
    rewrite Hs. unfold derivedKeys.
    repeat (constructor; [rewrite setAnalysisResult_lookup; reflexivity|]).
    constructor.
Qed.

Lemma malformed_result_response_witness :
  let w := run (jobA_submitted
                ++ [FetchSettled 1 (Resolved (statusDoc "completed" 100))])
             initialWorld in
  analysisResult (step (FetchSettled 2 (Resolved JNull)) w) = analysisResult w
  ∧ intervals (step (FetchSettled 2 (Resolved JNull)) w) = intervals w
  ∧ trace (step (FetchSettled 2 (Resolved JNull)) w)
    = trace w ++ [ConsoleError "Polling failed:"].
Proof.
  apply (malformed_result_response
           (run (jobA_submitted
                 ++ [FetchSettled 1 (Resolved (statusDoc "completed" 100))])
              initialWorld) 2 "A").
  - eexists. reflexivity.
  - reflexivity.
Defined.

(** ** Teardown and reset *)

Lemma status_requests_app job tr1 tr2 :
  status_requests job (tr1 ++ tr2)
  = status_requests job tr1 + status_requests job tr2.
Proof. induction tr1 as [|o tr1 IH]; simpl; [reflexivity|]. rewrite IH. lia. Qed.

Lemma commit_unmounted w : mounted w = false → commit w = w.
Proof. intros H. unfold commit. rewrite H. reflexivity. Qed.

Lemma unmounted_step e w :
  mounted w = false →
  intervals w = ∅ →
  mounted (step e w) = false
  ∧ intervals (step e w) = ∅
  ∧ ∀ job, status_requests job (trace (step e w)) = status_requests job (trace w).
Proof.
  intros Hm Hi.
  assert (mounted (handle e w) = false
          ∧ intervals (handle e w) = ∅
          ∧ ∀ job, status_requests job (trace (handle e w))
                   = status_requests job (trace w)) as H.
  { destruct e; open_handlers; rewrite ?Hm, ?Hi, ?lookup_empty;
      repeat case_match; subst; unfold clearPollRef; wsimpl;
      repeat case_match; wsimpl; rewrite ?Hi, ?delete_empty;
      repeat split; try assumption; try reflexivity;
      intros job'; rewrite ?status_requests_app; simpl; lia. }
  unfold step. rewrite commit_unmounted by apply H. exact H.
Qed.

(** The unmount releases the timer, and while the Dashboard is
    unmounted none of the events of the pipeline (a settled submit,
    status or result request, a stray tick) creates a timer or sends a
    status request: polling resumes only when the Dashboard is mounted
    again. *)
Theorem unmounted_dashboard_is_idle w :
  reachable w →
  (mounted (step Unmount w) = false
   ∧ intervals (step Unmount w) = ∅
   ∧ trace (step Unmount w) = trace w)
  ∧ (mounted w = false →
     ∀ e, mounted (step e w) = false
          ∧ intervals (step e w) = ∅
          ∧ ∀ job, status_requests job (trace (step e w))
                   = status_requests job (trace w)).
Proof.
  intros Hw. destruct (reachable_timers_current w Hw) as [Hown Heff].
  pose proof (clearPollRef_intervals w Hown) as Hclr.
  pose proof (no_effect_no_timers w Hown) as Hnone.
  split.
  - unfold step, handle, unmount. destruct (mounted w) eqn:Hm.
    + rewrite commit_unmounted by reflexivity. wsimpl.
      destruct (effectJob w) eqn:He; wsimpl.
      * rewrite Hclr, clearPollRef_trace. auto.
      * rewrite (Hnone eq_refl). auto.
    + rewrite commit_unmounted by exact Hm. auto.
  - intros Hm e. apply unmounted_step; [exact Hm|].
    apply Hnone. rewrite Heff, Hm. reflexivity.
Qed.

Lemma unmounted_dashboard_is_idle_witness :
  let w := run jobA_submitted initialWorld in
  let late := FetchSettled 1 (Resolved (statusDoc "completed" 100)) in
  (mounted (step Unmount w) = false
   ∧ intervals (step Unmount w) = ∅
   ∧ trace (step Unmount w) = trace w)
  ∧ (mounted (step late (step Unmount w)) = false
     ∧ intervals (step late (step Unmount w)) = ∅
     ∧ ∀ job, status_requests job (trace (step late (step Unmount w)))
              = status_requests job (trace (step Unmount w))).
Proof.
  cbv zeta. split.
  - destruct (unmounted_dashboard_is_idle (run jobA_submitted initialWorld))
      as [H _]; [exists jobA_submitted; reflexivity|exact H].
  - destruct (unmounted_dashboard_is_idle
                (step Unmount (run jobA_submitted initialWorld))) as [_ H].
    + exists (jobA_submitted ++ [Unmount]). vm_compute. reflexivity.
    + assert (mounted (step Unmount (run jobA_submitted initialWorld)) = false)
        as Hm by (vm_compute; reflexivity).
      exact (H Hm (FetchSettled 1 (Resolved (statusDoc "completed" 100)))).
Defined.

(** [clearAll] puts both stores back to their initial values; the
    commit that follows cancels the poll timer through the effect
    cleanup and sends nothing, and the submission guard is closed. *)
Theorem clearAll_resets w :
  reachable w →
  let w' := commit (clearAll w) in
  patientData w' = initialPatientData
  ∧ analysisResult w' = initialAnalysisResult
  ∧ canSubmit (patientData w') = false
  ∧ intervals w' = ∅
  ∧ trace w' = trace w
  ∧ inflight w' = inflight w.
Proof.
  intros Hw. cbv zeta.
  destruct (reachable_timers_current w Hw) as [Hown Heff].
  pose proof (clearPollRef_intervals w Hown) as Hclr.
  pose proof (no_effect_no_timers w Hown) as Hnone.
  rewrite commit_patientData, commit_analysisResult.
  destruct (commit_no_job (clearAll w)) as (-> & _ & ->); [reflexivity|].
  unfold clearAll. wsimpl. repeat split.
  unfold commit. wsimpl.
  change (active_job initialAnalysisResult) with (@None string).
  destruct (mounted w) eqn:Hm.
  - destruct (effectJob w) as [old|] eqn:He.
    + rewrite decide_False by (intros [=]). wsimpl.
      unfold clearPollRef in *. wsimpl.
      destruct (pollRef w) as [t|]; wsimpl; auto.
    + rewrite decide_True by reflexivity. wsimpl. auto.
  - wsimpl. auto.
Qed.

Lemma clearAll_resets_witness :
  let w' := commit (clearAll (run jobA_submitted initialWorld)) in
  patientData w' = initialPatientData
  ∧ analysisResult w' = initialAnalysisResult
  ∧ canSubmit (patientData w') = false
  ∧ intervals w' = ∅
  ∧ trace w' = trace (run jobA_submitted initialWorld)
  ∧ inflight w' = inflight (run jobA_submitted initialWorld).
Proof.
  apply (clearAll_resets (run jobA_submitted initialWorld)).
  exists jobA_submitted. reflexivity.
Defined.

(** ** Which jobs are polled *)

Lemma created_jobs_app es1 es2 :
  created_jobs (es1 ++ es2) = created_jobs es1 ++ created_jobs es2.
Proof.
  induction es1 as [|e es1 IH]; [reflexivity|].
  cbn [app created_jobs]. rewrite IH.
  destruct e as [| | | | | | | | |r resp| |]; try reflexivity.
  destruct resp; reflexivity.
Qed.

Lemma commit_requests w :
  (inflight (commit w) = inflight w ∧ trace (commit w) = trace w)
  ∨ ∃ job, active_job (analysisResult w) = Some job
           ∧ inflight (commit w)
             = <[nextRequest w := AwaitStatus job]> (inflight w)
           ∧ trace (commit w)
             = trace w ++ [Sent (nextRequest w) (GetStatus job)].
Proof.
  unfold commit. destruct (mounted w); [|by left].
  case_decide; [by left|].
  destruct (active_job (analysisResult w)) as [job|] eqn:Hj.
  - right. exists job. split; [reflexivity|].
    destruct (effectJob w); wsimpl; [|auto].
    destruct (clearPollRef_fields w) as (_ & _ & _ & _ & -> & -> & -> & _).
    auto.
  - left. destruct (effectJob w); wsimpl; [|auto].
    destruct (clearPollRef_fields w) as (_ & _ & _ & _ & -> & _ & -> & _).
    auto.
Qed.

Lemma jobs_known_commit known w : jobs_known known w → jobs_known known (commit w).
Proof.
  intros (Hs & Hi & Ht). unfold jobs_known. rewrite commit_analysisResult.
  destruct (commit_requests w) as [[-> ->]|(job & Hj & -> & ->)];
    [auto|].
  split; [exact Hs|]. split.
  - intros r k j. rewrite lookup_insert. case_decide.
    + intros [= <-] [= <-]. apply Hs, Hj.
    + apply Hi.
  - intros o j. rewrite elem_of_app, list_elem_of_singleton.
    intros [Ho| ->]; [by apply Ht|]. intros [= <-]. apply Hs, Hj.
Qed.

Lemma active_job_status v s :
  active_job (setAnalysisResult {[ "status" := v ]} s) = active_job s.
Proof. unfold active_job. rewrite setAnalysisResult_lookup. reflexivity. Qed.

Lemma handle_active_job e w j :
  active_job (analysisResult (handle e w)) = Some j →
  active_job (analysisResult w) = Some j ∨ j ∈ created_jobs [e].
Proof.
  destruct (handle_store e w)
    as [->|[->|[(r & id & -> & ->)|[(r & v & job & _ & _ & ->)
                                   |(r & v & job & res & _ & _ & _ & ->)]]]].
  - auto.
  - rewrite active_job_cleared. intros [=].
  - rewrite active_job_written. case_decide; [intros [=]|].
    intros [= <-]. right. cbn [created_jobs]. apply list_elem_of_singleton.
    reflexivity.
  - rewrite active_job_status. auto.
  - rewrite active_job_aggregate. auto.
Qed.

Lemma clearPollRef_inflight w : inflight (clearPollRef w) = inflight w.
Proof. apply clearPollRef_fields. Qed.

(** A handler segment parks a poll or sends a poll request only for a
    job that a live timer or a pending status poll already names. *)
Lemma handle_new_requests e w :
  (∀ r k, inflight (handle e w) !! r = Some k →
          inflight w !! r = Some k
          ∨ continuation_job k = None
          ∨ ∃ j, continuation_job k = Some j ∧ job_in_use j w)
  ∧ (∀ o, o ∈ trace (handle e w) →
          o ∈ trace w
          ∨ request_job o = None
          ∨ ∃ j, request_job o = Some j ∧ job_in_use j w).
Proof.
  unfold job_in_use.
  destruct e; open_handlers; repeat case_match; subst; wsimpl;
    rewrite ?clearPollRef_trace, ?clearPollRef_inflight; wsimpl;
    split; new_request; cbn [continuation_job request_job];
    eauto 8.
Qed.

Lemma jobs_known_step known e w :
  reachable w → jobs_known known w →
  jobs_known (known ++ created_jobs [e]) (step e w).
Proof.
  intros Hw (Hs & Hi & Ht). unfold step. apply jobs_known_commit.
  assert (∀ j, job_in_use j w → j ∈ known) as Huse.
  { intros j [[t Hj]|[r Hj]].
    - destruct (reachable_timers_current w Hw) as [Hown Heff].
      destruct (Hown t j Hj) as [_ He]. rewrite He in Heff.
      destruct (mounted w); [|discriminate Heff]. apply Hs. congruence.
    - apply (Hi r (AwaitStatus j) j Hj). reflexivity. }
  destruct (handle_new_requests e w) as [Hni Hnt].
  split; [|split].
  - intros j Hj. apply elem_of_app.
    destruct (handle_active_job e w j Hj); auto.
  - intros r k j Hk Hc. apply elem_of_app. left.
    destruct (Hni r k Hk) as [H|[H|(j' & Hj' & H)]].
    + by apply (Hi r k j).
    + congruence.
    + apply Huse. congruence.
  - intros o j Ho Hr. apply elem_of_app. left.
    destruct (Hnt o Ho) as [H|[H|(j' & Hj' & H)]].
    + by apply (Ht o j).
    + congruence.
    + apply Huse. congruence.
Qed.

Lemma jobs_known_run es : jobs_known (created_jobs es) (run es initialWorld).
Proof.
  induction es as [|e es IH] using rev_ind.
  - repeat split.
    + intros j. vm_compute. intros [=].
    + intros r k j. cbn [run fold_left initialWorld inflight].
      rewrite lookup_empty. intros [=].
    + intros o j H. cbn in H. by apply elem_of_nil in H.
  - rewrite run_snoc, created_jobs_app.
    apply jobs_known_step; [apply reachable_run | exact IH].
Qed.

(** The poller never makes up a job: every status or result request ever
    sent names a job identifier that an earlier create-job response
    returned. *)
Theorem polled_jobs_were_created es o job :
  o ∈ trace (run es initialWorld) →
  request_job o = Some job →
  job ∈ created_jobs es.
Proof.
  intros Ho Hj. destruct (jobs_known_run es) as (_ & _ & Ht).
  exact (Ht o job Ho Hj).
Qed.

Lemma polled_jobs_were_created_witness : "A" ∈ created_jobs overlapping_polls.
Proof.
  apply (polled_jobs_were_created overlapping_polls (Sent 3 (GetResult "A"))).
  - apply (list_elem_of_lookup_2 _ 3). vm_compute. reflexivity.
  - reflexivity.
Defined.

(** ** Supersession *)

Lemma no_job_no_timer w :
  reachable w → active_job (analysisResult w) = None → intervals w = ∅.
Proof.
  intros Hw Hj. destruct (reachable_timers_current w Hw) as [Hown Heff].
  apply (no_effect_no_timers w Hown). rewrite Heff, Hj.
  destruct (mounted w); reflexivity.
Qed.

(** A new submission cancels the running poll timer at once, before the
    new job identifier is known: right after the click of the submit
    button (guard satisfied) or of a demo button no interval is live and
    the store names no job. *)
Theorem submission_cancels_timer e w :
  reachable w →
  mounted w = true →
  (e = ClickSubmit ∧ canSubmit (patientData w) = true) ∨ is_demo_click e = true →
  intervals (step e w) = ∅
  ∧ active_job (analysisResult (step e w)) = None.
Proof.
  intros Hw Hm He.
  assert (active_job (analysisResult (step e w)) = None) as Hj.
  { rewrite step_store.
    destruct He as [[-> Hc]|He].
    - unfold handle, startSubmit. rewrite Hm, Hc. wsimpl.
      apply active_job_cleared.
    - destruct e; try discriminate He;
        unfold handle, useDemoCase, useDemoPathology; rewrite Hm; wsimpl;
        apply active_job_cleared. }
  split; [|exact Hj]. apply no_job_no_timer; [apply reachable_step, Hw|exact Hj].
Qed.

Lemma submission_cancels_timer_witness :
  intervals (run jobA_submitted initialWorld) = {[ 1%positive := "A" ]}
  ∧ intervals (step ClickSubmit (run jobA_submitted initialWorld)) = ∅
  ∧ active_job (analysisResult (step ClickSubmit (run jobA_submitted initialWorld)))
    = None.
Proof.
  split; [vm_compute; reflexivity|].
  apply (submission_cancels_timer ClickSubmit (run jobA_submitted initialWorld)).
  - exists jobA_submitted. reflexivity.
  - reflexivity.
  - left. split; reflexivity.
Defined.
